(** * WIC_HamsterGenerator: the blend-shape classifier and the emotion smoother

    A shallow embedding of [classifyEmotion], [updateEmotionSmoothed],
    [updateUI], [clearEmotion] and the per-frame dispatch of [predict].

    JavaScript numbers are IEEE 754 binary64 values; they are modelled by the
    kernel's primitive floats, whose operations are the same binary64
    operations with round-to-nearest-even.  The dictionary [s] built from the
    blend-shape array is a [gmap string float]; the objects [scores] and
    [freq], which are iterated in insertion order, are association lists. *)

From Stdlib Require Import ZArith QArith Qabs Lia List Bool Floats.
From stdpp Require Import base option list gmap strings.

Set Warnings "-inexact-float".
Local Open Scope float_scope.

(** ** JavaScript numbers *)

Module JS.

(** The type [number]. *)
Abbreviation number := float (only parsing).

(** [a > b] on numbers: false as soon as one side is NaN. *)
Definition gtb (a b : number) : bool := b <? a.

(** [Math.min(a, b)]: NaN if either argument is NaN, and -0 below +0. *)
Definition Math_min (a b : number) : number :=
  if is_nan a || is_nan b then nan
  else if a <? b then a
  else if b <? a then b
  else if get_sign a then a else b.

Definition two52 : number := 4503599627370496.

(** [Math.floor(x)]. Below 2^52 in magnitude, adding and subtracting 2^52
    rounds to an integer, which is then corrected downwards. *)
Definition Math_floor (x : number) : number :=
  if is_nan x || negb (abs x <? two52) then x
  else if x =? 0 then x
  else
    let r := if 0 <? x then (x + two52) - two52 else (x - two52) + two52 in
    if x <? r then r - 1 else r.

(** [Math.round(x)]: the nearest integer, ties towards +infinity. *)
Definition Math_round (x : number) : number :=
  if is_nan x || negb (abs x <? two52) then x
  else if x =? 0 then x
  else if (0 <? x) && (x <? 0.5) then 0
  else if (x <? 0) && (-0.5 <=? x) then -0
  else
    let f := Math_floor x in
    if x - f <? 0.5 then f else f + 1.

(** The exact rational value of a finite number. *)
Definition to_Q (x : number) : option Q :=
  match Prim2SF x with
  | S754_zero _ => Some 0%Q
  | S754_finite sg m e =>
      let v := if (0 <=? e)%Z
               then inject_Z (Z.pos m * 2 ^ e)
               else Qmake (Z.pos m) (Z.to_pos (2 ^ (- e))) in
      Some (if sg then Qopp v else v)
  | _ => None
  end.

End JS.
Export JS.

(** ** Data model *)

(** [type Emotion = "happy" | "sad" | "surprised" | "angry" | "neutral" | "excited"] *)
Inductive Emotion : Set :=
  | happy | sad | surprised | angry | neutral | excited.

#[export] Instance Emotion_eq_dec : EqDecision Emotion.
Proof. solve_decision. Defined.

(** [interface EmotionResult] *)
Record EmotionResult : Type := mkResult {
  emotion : Emotion;
  confidence : number
}.

(** One element of the [blendShapes] array. *)
Record Category : Type := mkCategory {
  categoryName : string;
  score : number
}.

(** ** classifyEmotion *)

(** [for (const b of blendShapes) s[b.categoryName] = b.score]:
    a later entry with the same name overwrites an earlier one.  The table is
    only ever read at the twenty-five channel names of [aggregates]. *)
Definition lookupTable (blendShapes : list Category) : gmap string number :=
  fold_left (fun s b => <[categoryName b := score b]> s) blendShapes ∅.

(** [const get = (name) => s[name] ?? 0] *)
Definition get (s : gmap string number) (name : string) : number :=
  default 0 (s !! name).

(** The fourteen named aggregates. *)
Record Aggregates : Type := mkAggregates {
  smile : number;  frown : number;  dimple : number;  pucker : number;
  jawOpen : number;  browUp : number;  browInner : number;  browDown : number;
  eyeWide : number;  cheekSquint : number;  sneer : number;
  mouthShrug : number;  eyeSquint : number;  eyeLookDown : number
}.

Definition aggregates (s : gmap string number) : Aggregates :=
  {| smile := (get s "mouthSmileLeft" + get s "mouthSmileRight") / 2;
     frown := (get s "mouthFrownLeft" + get s "mouthFrownRight") / 2;
     dimple := (get s "mouthDimpleLeft" + get s "mouthDimpleRight") / 2;
     pucker := get s "mouthPucker";
     jawOpen := get s "jawOpen";
     browUp := (get s "browOuterUpLeft" + get s "browOuterUpRight") / 2;
     browInner := get s "browInnerUp";
     browDown := (get s "browDownLeft" + get s "browDownRight") / 2;
     eyeWide := (get s "eyeWideLeft" + get s "eyeWideRight") / 2;
     cheekSquint := (get s "cheekSquintLeft" + get s "cheekSquintRight") / 2;
     sneer := (get s "noseSneerLeft" + get s "noseSneerRight") / 2;
     mouthShrug := (get s "mouthShrugUpper" + get s "mouthShrugLower") / 2;
     eyeSquint := (get s "eyeSquintLeft" + get s "eyeSquintRight") / 2;
     eyeLookDown := (get s "eyeLookDownLeft" + get s "eyeLookDownRight") / 2 |}.

(** The object [scores], as the list of its entries in insertion order:
    happy, excited, surprised, sad, angry, neutral. *)
Definition rawScores (a : Aggregates) : list (Emotion * number) :=
  [ (happy, smile a * 1.5 + cheekSquint a * 0.5);
    (excited, smile a * 1.0 + eyeWide a * 0.8 + browUp a * 0.6 + jawOpen a * 0.4);
    (surprised, jawOpen a * 1.4 + eyeWide a * 1.0 + browUp a * 0.6 + browInner a * 0.4);
    (sad, frown a * 1.4 + browInner a * 0.7 + (1.0 - dimple a) * 0.2
          + (1.0 - pucker a) * 0.2);
    (angry, eyeSquint a * 1.2 + mouthShrug a * 1.0 + eyeLookDown a * 0.7
            + browDown a * 0.5 + sneer a * 0.5 - smile a * 0.5);
    (neutral, 1.1 - (smile a + frown a + jawOpen a + browUp a + browDown a
                     + eyeWide a + eyeSquint a + mouthShrug a) / 4) ].

(** [if (scores[key] < 0) scores[key] = 0] *)
Definition clamp (x : number) : number := if x <? 0 then 0 else x.

Definition clampScores (scores : list (Emotion * number)) : list (Emotion * number) :=
  map (fun kv => (fst kv, clamp (snd kv))) scores.

(** The post-clamp scores of a blend-shape array. *)
Definition scoresOf (blendShapes : list Category) : list (Emotion * number) :=
  clampScores (rawScores (aggregates (lookupTable blendShapes))).

(** One iteration of the winner loop:
    [if (score > bestScore) { bestScore = score; best = emotion; }] *)
Definition pickStep (acc : Emotion * number) (entry : Emotion * number)
  : Emotion * number :=
  if gtb (snd entry) (snd acc) then entry else acc.

(** [let best = "neutral"; let bestScore = -1; for (...) ...] *)
Definition findWinner (scores : list (Emotion * number)) : Emotion * number :=
  fold_left pickStep scores (neutral, -1).

Definition classifyEmotion (blendShapes : list Category) : EmotionResult :=
  let '(best, bestScore) := findWinner (scoresOf blendShapes) in
  {| emotion := best; confidence := Math_min (bestScore / 1.5) 1 |}.

(** [scores[e]]: the score stored under key [e]. *)
Fixpoint scoreIn (scores : list (Emotion * number)) (e : Emotion) : number :=
  match scores with
  | [] => nan
  | (k, v) :: rest => if decide (k = e) then v else scoreIn rest e
  end.

(** The position of an emotion among the keys of [scores]. *)
Definition enumIndex (e : Emotion) : nat :=
  match e with
  | happy => 0 | excited => 1 | surprised => 2
  | sad => 3 | angry => 4 | neutral => 5
  end.

(** The label returned for a snapshot has a score above or equal to every
    score, and strictly above the score of every label before it in the
    order of the keys. *)
Definition winnerIsFirstGreatest (blendShapes : list Category) : Prop :=
  let sc := scoresOf blendShapes in
  let w := emotion (classifyEmotion blendShapes) in
  (forall e, (scoreIn sc e <=? scoreIn sc w) = true)
  /\ (forall e, (enumIndex e < enumIndex w)%nat ->
                (scoreIn sc e <? scoreIn sc w) = true).

(** ** Smoothing and display state *)

Definition HISTORY_SIZE : nat := 8.

Definition emotionText (e : Emotion) : string :=
  match e with
  | happy => "happy" | sad => "sad" | surprised => "surprised"
  | angry => "angry" | neutral => "neutral" | excited => "excited"
  end.

(** What the DOM elements written by [updateUI], [clearEmotion] and
    [setStatus] show.  [confidencePct] is the number [pct] of the string
    [pct + "%"] written to [confidenceVal] and assigned to the width of
    [confidenceBar]; [expressionImg] is the emotion whose image is the current
    [src]; [activePill] is the pill carrying class [active].  The caption,
    which only [clearEmotion] writes, is left out. *)
Record Dom : Type := mkDom {
  statusText : string;
  emotionName : option Emotion;
  confidencePct : number;
  expressionImg : option Emotion;
  expressionImgHidden : bool;
  placeholderHidden : bool;
  activePill : option Emotion
}.

(** The module-level state: [currentEmotion], [emotionHistory] and the page. *)
Record State : Type := mkState {
  currentEmotion : option Emotion;
  emotionHistory : list Emotion;
  page : Dom
}.

(** The page before the first frame: nothing shown. *)
Definition initialDom : Dom :=
  {| statusText := ""; emotionName := None; confidencePct := 0;
     expressionImg := None; expressionImgHidden := true;
     placeholderHidden := false; activePill := None |}.

Definition initialState : State :=
  {| currentEmotion := None; emotionHistory := []; page := initialDom |}.

Definition setStatus (msg : string) (st : State) : State :=
  {| currentEmotion := currentEmotion st;
     emotionHistory := emotionHistory st;
     page := {| statusText := msg;
               emotionName := emotionName (page st);
               confidencePct := confidencePct (page st);
               expressionImg := expressionImg (page st);
               expressionImgHidden := expressionImgHidden (page st);
               placeholderHidden := placeholderHidden (page st);
               activePill := activePill (page st) |} |}.

(** [updateUI]: nothing happens when the label is the one already shown. *)
Definition updateUI (e : Emotion) (conf : number) (st : State) : State :=
  if decide (Some e = currentEmotion st) then st
  else
    {| currentEmotion := Some e;
       emotionHistory := emotionHistory st;
       page := {| statusText := "detected: " +:+ emotionText e;
                 emotionName := Some e;
                 confidencePct := Math_round (conf * 100);
                 expressionImg := Some e;
                 expressionImgHidden := false;
                 placeholderHidden := true;
                 activePill := Some e |} |}.

(** [clearEmotion]: resets [currentEmotion] and the page; [emotionHistory]
    is not touched. *)
Definition clearEmotion (st : State) : State :=
  {| currentEmotion := None;
     emotionHistory := emotionHistory st;
     page := {| statusText := statusText (page st);
               emotionName := None;
               confidencePct := 0;
               expressionImg := expressionImg (page st);
               expressionImgHidden := true;
               placeholderHidden := false;
               activePill := None |} |}.

(** [emotionHistory.push(emotion);
     if (emotionHistory.length > HISTORY_SIZE) emotionHistory.shift();] *)
Definition pushHistory (h : list Emotion) (e : Emotion) : list Emotion :=
  let h1 := h ++ [e] in
  if (HISTORY_SIZE <? length h1)%nat then tail h1 else h1.

(** [freq[e] = (freq[e] ?? 0) + 1] on the object [freq], kept as the list of
    its entries in insertion order.  The counts are integers far below 2^53,
    where number addition is exact. *)
Fixpoint bump (e : Emotion) (freq : list (Emotion * nat)) : list (Emotion * nat) :=
  match freq with
  | [] => [(e, 1%nat)]
  | (k, c) :: rest =>
      if decide (k = e) then (k, S c) :: rest else (k, c) :: bump e rest
  end.

Definition countFreq (h : list Emotion) : list (Emotion * nat) :=
  fold_left (fun freq e => bump e freq) h [].

(** [if (count > max) { max = count; dominant = e; }] *)
Definition domStep (acc entry : Emotion * nat) : Emotion * nat :=
  if (snd acc <? snd entry)%nat then entry else acc.

(** [let dominant = emotion; let max = 0; for (...) ...] *)
Definition dominantOf (e : Emotion) (h : list Emotion) : Emotion :=
  fst (fold_left domStep (countFreq h) (e, 0%nat)).

(** The arguments with which [updateEmotionSmoothed] calls [updateUI]. *)
Definition smoothedCall (e : Emotion) (conf : number) (st : State)
  : Emotion * number :=
  (dominantOf e (pushHistory (emotionHistory st) e), conf).

Definition updateEmotionSmoothed (e : Emotion) (conf : number) (st : State)
  : State :=
  let h := pushHistory (emotionHistory st) e in
  let dominant := dominantOf e h in
  updateUI dominant conf
    {| currentEmotion := currentEmotion st; emotionHistory := h; page := page st |}.

(** What [detectForVideo] found in one video frame. *)
Inductive Frame : Type :=
  | NoFace
  | FaceWithoutBlendshapes
  | Face (categories : list Category).

(** The body of [predict] for one new video frame. *)
Definition predictFrame (f : Frame) (st : State) : State :=
  match f with
  | Face categories =>
      let r := classifyEmotion categories in
      updateEmotionSmoothed (emotion r) (confidence r) st
  | FaceWithoutBlendshapes => st
  | NoFace => clearEmotion (setStatus "no face detected" st)
  end.

(** Processing a sequence of video frames. *)
Definition runFrames (frames : list Frame) (st : State) : State :=
  fold_left (fun s f => predictFrame f s) frames st.

(** States reached from the initial one by calls of the three functions that
    write the state; [predictFrame] is a composition of them. *)
Inductive reachable : State -> Prop :=
  | reach_init : reachable initialState
  | reach_observe e conf st :
      reachable st -> reachable (updateEmotionSmoothed e conf st)
  | reach_clear st : reachable st -> reachable (clearEmotion st)
  | reach_status msg st : reachable st -> reachable (setStatus msg st).

(** Feeding a sequence of raw classifications to the smoother. *)
Definition observeAll (frames : list (Emotion * number)) (st : State) : State :=
  fold_left (fun s f => updateEmotionSmoothed (fst f) (snd f) s) frames st.

(** The number of occurrences and the first position of a label in a history. *)
Definition occurrences (e : Emotion) (h : list Emotion) : nat :=
  length (filter (fun x => x = e) h).

Fixpoint firstIndex (e : Emotion) (h : list Emotion) : option nat :=
  match h with
  | [] => None
  | x :: rest => if decide (x = e) then Some 0%nat else S <$> firstIndex e rest
  end.

(** The distinct labels of a history in the order of their first occurrence:
    the keys of [freq] in insertion order. *)
Definition firstSeen (h : list Emotion) : list Emotion :=
  fold_left (fun ks e => if decide (e ∈ ks) then ks else ks ++ [e]) h [].

(** The raw classification during whose call the page was last rendered. *)
Definition renderStep (acc : State * option (Emotion * number))
    (f : Emotion * number) : State * option (Emotion * number) :=
  let st := fst acc in
  let d := fst (smoothedCall (fst f) (snd f) st) in
  (updateEmotionSmoothed (fst f) (snd f) st,
   if decide (Some d = currentEmotion st) then snd acc else Some f).

Definition renderedBy (frames : list (Emotion * number)) (st : State)
  : option (Emotion * number) :=
  snd (fold_left renderStep frames (st, None)).

(** ** Notions used in the statements *)

(** The shape shared by the two selection loops: the entry replaces the
    current best when its value is strictly greater. *)
Definition keepGreater {K V : Type} (lt : V -> V -> bool) (acc entry : K * V)
  : K * V :=
  if lt (snd acc) (snd entry) then entry else acc.

(** A key on which the order of binary64 numbers is lexicographic: the class
    (negative infinity, negative, zero, positive, positive infinity), then
    exponent and mantissa, both negated for negative numbers. *)
Definition orderKey (x : spec_float) : Z * Z * Z :=
  match x with
  | S754_nan => (0, 0, 0)
  | S754_zero _ => (0, 0, 0)
  | S754_infinity true => (-2, 0, 0)
  | S754_infinity false => (2, 0, 0)
  | S754_finite true m e => (-1, - e, - Z.pos m)
  | S754_finite false m e => (1, e, Z.pos m)
  end%Z.

Definition lexlt (a b : Z * Z * Z) : Prop :=
  let '(a1, a2, a3) := a in
  let '(b1, b2, b3) := b in
  (a1 < b1 \/ (a1 = b1 /\ (a2 < b2 \/ (a2 = b2 /\ a3 < b3))))%Z.

(** Zeros, positive numbers and positive infinity. *)
Definition nonnegative (x : spec_float) : Prop :=
  match x with
  | S754_zero _ | S754_infinity false | S754_finite false _ _ => True
  | _ => False
  end.

(** ** Snapshots used in the statements *)

(** The scenario snapshot: open jaw, wide eyes, raised brows. *)
Definition surprisedSnapshot : list Category :=
  [ mkCategory "jawOpen" 0.8;
    mkCategory "eyeWideLeft" 0.7; mkCategory "eyeWideRight" 0.7;
    mkCategory "browOuterUpLeft" 0.5; mkCategory "browOuterUpRight" 0.5;
    mkCategory "browInnerUp" 0.3 ].

(** Three channels carrying NaN: every one of the six formulas reads one. *)
Definition nanSnapshot : list Category :=
  [ mkCategory "mouthSmileLeft" nan; mkCategory "jawOpen" nan;
    mkCategory "browInnerUp" nan ].

(** Finite but huge scores: the pair sums overflow to infinities of both
    signs, and every formula meets [infinity - infinity]. *)
Definition hugeSnapshot : list Category :=
  [ mkCategory "mouthSmileLeft" 1.7e308; mkCategory "mouthSmileRight" 1.7e308;
    mkCategory "cheekSquintLeft" (-1.7e308); mkCategory "cheekSquintRight" (-1.7e308);
    mkCategory "eyeWideLeft" (-1.7e308); mkCategory "eyeWideRight" (-1.7e308);
    mkCategory "jawOpen" 1.7e308;
    mkCategory "mouthFrownLeft" 1.7e308; mkCategory "mouthFrownRight" 1.7e308;
    mkCategory "mouthDimpleLeft" 1.7e308; mkCategory "mouthDimpleRight" 1.7e308;
    mkCategory "eyeSquintLeft" 1.7e308; mkCategory "eyeSquintRight" 1.7e308 ].

(** A frown at full strength, classified as sad. *)
Definition frownSnapshot : list Category :=
  [ mkCategory "mouthFrownLeft" 1; mkCategory "mouthFrownRight" 1 ].

(** A smile at 0.9 on both sides, classified as happy. *)
Definition smileSnapshot : list Category :=
  [ mkCategory "mouthSmileLeft" 0.9; mkCategory "mouthSmileRight" 0.9 ].



(** The aggregates of a snapshot in which nothing is active. *)
Definition zeroAggregates : Aggregates :=
  {| smile := 0; frown := 0; dimple := 0; pucker := 0; jawOpen := 0;
     browUp := 0; browInner := 0; browDown := 0; eyeWide := 0;
     cheekSquint := 0; sneer := 0; mouthShrug := 0; eyeSquint := 0;
     eyeLookDown := 0 |}.

(** ** The image table, camera control and the prediction loop *)

(** [EMOTION_IMAGES] *)
Definition EMOTION_IMAGES (e : Emotion) : string :=
  match e with
  | happy => "./images/expressions/happy.jpeg"
  | sad => "./images/expressions/sad.jpeg"
  | surprised => "./images/expressions/surprised.jpeg"
  | angry => "./images/expressions/angry.jpeg"
  | neutral => "./images/expressions/neutral.jpeg"
  | excited => "./images/expressions/excited.jpeg"
  end.

(** The channel names that [classifyEmotion] passes to [get]. *)
Definition readChannels : list string :=
  [ "mouthSmileLeft"; "mouthSmileRight"; "mouthFrownLeft"; "mouthFrownRight";
    "mouthDimpleLeft"; "mouthDimpleRight"; "mouthPucker"; "jawOpen";
    "browOuterUpLeft"; "browOuterUpRight"; "browInnerUp";
    "browDownLeft"; "browDownRight"; "eyeWideLeft"; "eyeWideRight";
    "cheekSquintLeft"; "cheekSquintRight"; "noseSneerLeft"; "noseSneerRight";
    "mouthShrugUpper"; "mouthShrugLower"; "eyeSquintLeft"; "eyeSquintRight";
    "eyeLookDownLeft"; "eyeLookDownRight" ].

(** The module-level variables read and written by the click handler and by
    [predict], around the smoothing state: whether [faceLandmarker] is set,
    [webcamRunning], [lastVideoTime], whether [video.srcObject] holds a
    stream, the text and [active] class of the camera button, and whether
    the bitmap of the canvas carries a face mesh.  The size of the canvas,
    which [predict] copies from the video element, is left out. *)
Record App : Type := mkApp {
  faceLandmarkerLoaded : bool;
  webcamRunning : bool;
  lastVideoTime : number;
  videoHasStream : bool;
  buttonText : string;
  buttonActive : bool;
  canvasMesh : bool;
  smoothing : State
}.



(** The [loadeddata] listener registered once the camera stream is granted;
    it ends with [requestAnimationFrame(predict)]. *)
Definition onLoadedData (app : App) : App :=
  {| faceLandmarkerLoaded := faceLandmarkerLoaded app;
     webcamRunning := true;
     lastVideoTime := lastVideoTime app;
     videoHasStream := videoHasStream app;
     buttonText := "Stop Camera";
     buttonActive := true;
     canvasMesh := canvasMesh app;
     smoothing := setStatus "detecting..." (smoothing app) |}.

(** The [catch] branch of the click handler. *)
Definition onCameraDenied (app : App) : App :=
  {| faceLandmarkerLoaded := faceLandmarkerLoaded app;
     webcamRunning := webcamRunning app;
     lastVideoTime := lastVideoTime app;
     videoHasStream := videoHasStream app;
     buttonText := buttonText app;
     buttonActive := buttonActive app;
     canvasMesh := canvasMesh app;
     smoothing := setStatus "camera access denied" (smoothing app) |}.

(** [a !== b] on numbers. *)
Definition strictNeq (a b : number) : bool := negb (a =? b).

(** [result.faceLandmarks?.length]: the mesh is drawn when a face is found. *)
Definition meshDrawn (detected : Frame) : bool :=
  match detected with
  | NoFace => false
  | FaceWithoutBlendshapes | Face _ => true
  end.

(** Assigning [canvasEl.width] and [canvasEl.height] resets the bitmap of
    the canvas: whatever was drawn is gone. *)
Definition wipeCanvas (app : App) : App :=
  {| faceLandmarkerLoaded := faceLandmarkerLoaded app;
     webcamRunning := webcamRunning app;
     lastVideoTime := lastVideoTime app;
     videoHasStream := videoHasStream app;
     buttonText := buttonText app;
     buttonActive := buttonActive app;
     canvasMesh := false;
     smoothing := smoothing app |}.

(** One call of [predict], given [video.currentTime] and what
    [detectForVideo] finds in the current video frame.  The boolean tells
    whether [requestAnimationFrame(predict)] was reached.  While the camera
    runs, every call first resizes the canvas, which resets its bitmap; for
    a new video time the canvas is then cleared and the mesh drawn if a face
    was found. *)
Definition predict (currentTime : number) (detected : Frame) (app : App)
  : App * bool :=
  if negb (webcamRunning app) then (app, false)
  else if strictNeq (lastVideoTime app) currentTime then
    ({| faceLandmarkerLoaded := faceLandmarkerLoaded app;
        webcamRunning := webcamRunning app;
        lastVideoTime := currentTime;
        videoHasStream := videoHasStream app;
        buttonText := buttonText app;
        buttonActive := buttonActive app;
        canvasMesh := meshDrawn detected;
        smoothing := predictFrame detected (smoothing app) |},
     true)
  else (wipeCanvas app, true).

(** The callbacks of one animation loop: [predict] is called again for the
    next entry as long as it asked for another animation frame. *)
Fixpoint runLoop (calls : list (number * Frame)) (app : App) : App :=
  match calls with
  | [] => app
  | (t, f) :: rest =>
      let '(app', again) := predict t f app in
      if again then runLoop rest app' else app'
  end.

(** ** Further notions used in the statements *)

(** Every callback comes with a video time other than the one before it. *)
Fixpoint freshTimes (last : number) (calls : list (number * Frame)) : bool :=
  match calls with
  | [] => true
  | (t, _) :: rest => strictNeq last t && freshTimes t rest
  end.

(** The entries of a blend-shape array as key-value pairs. *)
Definition entries (blendShapes : list Category) : list (string * number) :=
  map (fun b => (categoryName b, score b)) blendShapes.

(** The raw labels that a sequence of frames feeds to the smoother. *)
Definition labelsOf (frames : list Frame) : list Emotion :=
  flat_map (fun f => match f with
                     | Face categories => [emotion (classifyEmotion categories)]
                     | _ => []
                     end) frames.

(** The last [n] elements of a list. *)
Definition lastN {A : Type} (n : nat) (l : list A) : list A :=
  drop (length l - n) l.

(** The page agrees with [currentEmotion]: the same label is named, marked
    and pictured, with the matching status line; without a label the image is
    hidden behind the placeholder and the percentage is 0. *)
Definition pageShows (st : State) : Prop :=
  emotionName (page st) = currentEmotion st
  /\ activePill (page st) = currentEmotion st
  /\ match currentEmotion st with
     | Some e =>
         expressionImg (page st) = Some e
         /\ expressionImgHidden (page st) = false
         /\ placeholderHidden (page st) = true
         /\ statusText (page st) = "detected: " +:+ emotionText e
     | None =>
         expressionImgHidden (page st) = true
         /\ placeholderHidden (page st) = false
         /\ confidencePct (page st) = 0
     end.

(** A snapshot with one NaN channel: some scores are NaN, some are numbers. *)
Definition partlyNanSnapshot : list Category :=
  [ mkCategory "mouthSmileLeft" nan ].

(** * Properties of the classifier *)

(** ** The lookup table *)

Section LookupTable.

Implicit Types (snap : list Category) (s : gmap string number).

Lemma lookupTable_snoc snap c :
  lookupTable (snap ++ [c])
  = <[categoryName c := score c]> (lookupTable snap).
Proof. unfold lookupTable. now rewrite fold_left_app. Qed.

Lemma get_insert s k v n :
  get (<[k := v]> s) n = if decide (k = n) then v else get s n.
Proof.
  unfold get. destruct (decide (k = n)) as [->|Hkn].
  - now rewrite lookup_insert_eq.
  - now rewrite lookup_insert_ne.
Qed.

Lemma get_empty n : get ∅ n = 0.
Proof. unfold get. now rewrite lookup_empty. Qed.

(** A table filled with zeros reads as zero everywhere. *)
Lemma get_all_zero snap :
  Forall (fun b => score b = 0) snap ->
  forall n, get (lookupTable snap) n = 0.
Proof.
  induction snap as [|c snap IH] using rev_ind; intros Hz n.
  - apply get_empty.
  - apply Forall_app in Hz as [Hsnap Hc].
    rewrite lookupTable_snoc, get_insert.
    destruct (decide (categoryName c = n)).
    + now inversion_clear Hc.
    + now apply IH.
Qed.

(** The aggregates read the table only through [get]. *)
Lemma aggregates_ext s s' :
  (forall n, get s n = get s' n) -> aggregates s = aggregates s'.
Proof. intros H. unfold aggregates. now rewrite !H. Qed.

Lemma classifyEmotion_ext snap snap' :
  aggregates (lookupTable snap) = aggregates (lookupTable snap') ->
  scoresOf snap = scoresOf snap' /\ classifyEmotion snap = classifyEmotion snap'.
Proof.
  intros H. unfold classifyEmotion, scoresOf. now rewrite H.
Qed.

Lemma aggregates_all_zero snap :
  Forall (fun b => score b = 0) snap ->
  aggregates (lookupTable snap) = zeroAggregates.
Proof.
  intros Hz. unfold aggregates.
  rewrite !(get_all_zero snap Hz). reflexivity.
Qed.


End LookupTable.

(** ** Empty and all-zero snapshots *)

(** C2, as stated, fails: on the empty snapshot the score of [sad] is
    0.2 + 0.2 = 0.4, which is positive although [sad] is not [neutral]. *)
Lemma C2_sad_positive_on_empty :
  ~ (forall e, e <> neutral ->
       scoreIn (scoresOf []) e = 0 /\ (0 <? scoreIn (scoresOf []) e) = false).
Proof.
  intros H. destruct (H sad) as [_ Hpos]; [discriminate|].
  vm_compute in Hpos. discriminate.
Qed.

(** C2, amended: for a snapshot whose channels are all missing or zero every
    aggregate is 0 and, after the clamp, the scores of happy, excited,
    surprised and angry are 0, the score of sad is its constant part 0.4 and
    the score of neutral is its constant term 1.1; the positive scores are
    exactly those of sad and neutral. *)
Theorem C2_all_zero_scores (snap : list Category) :
  Forall (fun b => score b = 0) snap ->
  aggregates (lookupTable snap) = zeroAggregates
  /\ scoresOf snap
     = [ (happy, 0); (excited, 0); (surprised, 0);
         (sad, 0.4); (angry, 0); (neutral, 1.1) ]
  /\ (forall e, (0 <? scoreIn (scoresOf snap) e) = true <-> e = sad \/ e = neutral).
Proof.
  intros Hz. pose proof (aggregates_all_zero snap Hz) as Hagg.
  assert (Hsc : scoresOf snap
     = [ (happy, 0); (excited, 0); (surprised, 0);
         (sad, 0.4); (angry, 0); (neutral, 1.1) ]).
  { unfold scoresOf. rewrite Hagg. vm_compute. reflexivity. }
  repeat split; try assumption; rewrite Hsc.
  - destruct e; vm_compute; intros; (discriminate || auto).
  - intros [-> | ->]; vm_compute; reflexivity.
Qed.

Lemma C2_all_zero_scores_witness :
  Forall (fun b => score b = 0) [mkCategory "jawOpen" 0]
  /\ scoresOf [mkCategory "jawOpen" 0]
     = [ (happy, 0); (excited, 0); (surprised, 0);
         (sad, 0.4); (angry, 0); (neutral, 1.1) ].
Proof.
  assert (H : Forall (fun b => score b = 0) [mkCategory "jawOpen" 0]).
  { repeat constructor. }
  split; [exact H|].
  exact (proj1 (proj2 (C2_all_zero_scores [mkCategory "jawOpen" 0] H))).
Defined.

(** C4: for the empty snapshot, and for every snapshot whose channels are all
    zero, the result is neutral with confidence [Math.min(1.1 / 1.5, 1)].
    In binary64 that number is 0.7333333333333334, whose exact value lies
    within 2^-53 of 11/15. *)
Theorem C4_all_zero_neutral (snap : list Category) :
  Forall (fun b => score b = 0) snap ->
  classifyEmotion snap
  = {| emotion := neutral; confidence := Math_min (1.1 / 1.5) 1 |}
  /\ Math_min (1.1 / 1.5) 1 = 0.7333333333333334
  /\ exists q, to_Q (confidence (classifyEmotion snap)) = Some q
               /\ (Qabs (q - (11 # 15)) < 1 # 2 ^ 53)%Q.
Proof.
  intros Hz.
  assert (Hr : classifyEmotion snap
               = {| emotion := neutral; confidence := Math_min (1.1 / 1.5) 1 |}).
  { unfold classifyEmotion, scoresOf.
    rewrite (aggregates_all_zero snap Hz). vm_compute. reflexivity. }
  split; [exact Hr|]. split; [vm_compute; reflexivity|].
  rewrite Hr. eexists. split; [vm_compute; reflexivity|].
  vm_compute. reflexivity.
Qed.

Lemma C4_all_zero_neutral_witness :
  Forall (fun b => score b = 0) []
  /\ classifyEmotion []
     = {| emotion := neutral; confidence := Math_min (1.1 / 1.5) 1 |}.
Proof.
  assert (H : Forall (fun b : Category => score b = 0) []) by constructor.
  split; [exact H|]. exact (proj1 (C4_all_zero_neutral [] H)).
Defined.

(** ** The surprised scenario *)

(** C9: on the scenario snapshot the result is surprised with confidence
    exactly 1, the score of surprised is strictly above each of the five
    other scores, and its exact value lies within 10^-15 of 2.24. *)
Theorem C9_surprised_scenario :
  classifyEmotion surprisedSnapshot = {| emotion := surprised; confidence := 1 |}
  /\ Math_min (2.24 / 1.5) 1 = 1
  /\ (forall e, e <> surprised ->
        (scoreIn (scoresOf surprisedSnapshot) e
         <? scoreIn (scoresOf surprisedSnapshot) surprised) = true)
  /\ exists q, to_Q (scoreIn (scoresOf surprisedSnapshot) surprised) = Some q
               /\ (Qabs (q - (224 # 100)) < 1 # 10 ^ 15)%Q.
Proof.
  split; [vm_compute; reflexivity|]. split; [vm_compute; reflexivity|]. split.
  - intros e He. destruct e; try (vm_compute; reflexivity). now destruct He.
  - eexists. split; vm_compute; reflexivity.
Qed.

(** ** Scores that are not numbers *)

(** C5 fails on the code: when all six scores are NaN no comparison of the
    winner loop succeeds, [bestScore] keeps its initial value -1 and the
    confidence is [Math.min(-1 / 1.5, 1)], a negative number.  This happens
    for NaN channels, and for finite channels large enough to overflow. *)
Theorem C5_confidence_negative_on_nan :
  classifyEmotion nanSnapshot
  = {| emotion := neutral; confidence := -0.6666666666666666 |}
  /\ (confidence (classifyEmotion nanSnapshot) <? 0) = true
  /\ (0 <=? confidence (classifyEmotion nanSnapshot)) = false
  /\ Forall (fun b => is_finite (score b) = true) hugeSnapshot
  /\ classifyEmotion hugeSnapshot
     = {| emotion := neutral; confidence := -0.6666666666666666 |}.
Proof.
  repeat split; try (vm_compute; reflexivity).
  repeat constructor.
Qed.

(** ** Malformed scores *)




(** * The selection loops *)

(** Both [classifyEmotion] and [updateEmotionSmoothed] end with the same
    loop: scan the entries in order and replace the current best whenever an
    entry is strictly greater.  Over values on which [lt] is a strict weak
    order the loop returns the first entry of greatest value. *)
Section FirstMax.

Context {K V : Type} (lt : V -> V -> bool) (ok : V -> Prop).

Hypothesis lt_irrefl : forall a, ok a -> lt a a = false.
Hypothesis lt_trans : forall a b c, ok a -> ok b -> ok c ->
  lt a b = true -> lt b c = true -> lt a c = true.
Hypothesis lt_negtrans : forall a b c, ok a -> ok b -> ok c ->
  lt a b = false -> lt b c = false -> lt a c = false.

(** Below-or-equal followed by strictly-below is strictly-below. *)
Lemma lt_above a b c :
  ok a -> ok b -> ok c -> lt b a = false -> lt b c = true -> lt a c = true.
Proof using lt_negtrans.
  intros Ha Hb Hc Hba Hbc. destruct (lt a c) eqn:Hac; [reflexivity|].
  rewrite (lt_negtrans b a c Hb Ha Hc Hba Hac) in Hbc. discriminate.
Qed.

Lemma lt_below a b c :
  ok a -> ok b -> ok c -> lt a b = true -> lt a c = false -> lt b c = false.
Proof using lt_trans.
  intros Ha Hb Hc Hab Hac. destruct (lt b c) eqn:Hbc; [|reflexivity].
  rewrite (lt_trans a b c Ha Hb Hc Hab Hbc) in Hac. discriminate.
Qed.

Lemma firstMax_spec (l : list (K * V)) (init : K * V) :
  ok (snd init) ->
  Forall (fun kv => ok (snd kv)) l ->
  let r := fold_left (keepGreater lt) l init in
  ok (snd r)
  /\ lt (snd r) (snd init) = false
  /\ (forall kv, kv ∈ l -> lt (snd r) (snd kv) = false)
  /\ ((r = init /\ forall kv, kv ∈ l -> lt (snd init) (snd kv) = false)
      \/ exists i, l !! i = Some r
                   /\ lt (snd init) (snd r) = true
                   /\ forall j kv, l !! j = Some kv -> (j < i)%nat ->
                                   lt (snd kv) (snd r) = true).
Proof using lt_irrefl lt_trans lt_negtrans.
  intros Hinit. induction l as [|x l IH] using rev_ind; intros Hok r.
  - subst r. simpl. split; [|split; [|split]]; auto.
    + intros kv Hkv. inversion Hkv.
    + left. split; [reflexivity|]. intros kv Hkv. inversion Hkv.
  - apply Forall_app in Hok as [Hl Hx].
    rewrite Forall_singleton in Hx.
    destruct (IH Hl) as (Hr0 & Hri & Hmax & Hpos). clear IH.
    subst r. rewrite fold_left_app. simpl.
    set (r0 := fold_left (keepGreater lt) l init) in *.
    change (keepGreater lt r0 x) with (if lt (snd r0) (snd x) then x else r0).
    destruct (lt (snd r0) (snd x)) eqn:Hlt.
    + (* the new entry becomes the best *)
      assert (Hall : forall kv, kv ∈ l -> lt (snd kv) (snd x) = true).
      { intros kv Hkv.
        assert (Hokkv : ok (snd kv)).
        { rewrite Forall_forall in Hl. now apply Hl. }
        apply (lt_above (snd kv) (snd r0) (snd x)); auto. }
      assert (Hix : lt (snd init) (snd x) = true).
      { apply (lt_above (snd init) (snd r0) (snd x)); auto. }
      split; [|split; [|split]]; auto.
      * apply (lt_below (snd r0) (snd x) (snd init)); auto.
      * intros kv Hkv. apply elem_of_app in Hkv as [Hkv|Hkv].
        -- assert (Hokkv : ok (snd kv)).
           { rewrite Forall_forall in Hl. now apply Hl. }
           apply (lt_below (snd r0) (snd x) (snd kv)); auto.
        -- apply list_elem_of_singleton in Hkv. subst kv. now apply lt_irrefl.
      * right. exists (length l). split; [|split]; auto.
        -- rewrite lookup_app_r by lia. now rewrite Nat.sub_diag.
        -- intros j kv Hj Hjl. rewrite lookup_app_l in Hj by lia.
           apply Hall. eapply list_elem_of_lookup_2; eauto.
    + (* the best is kept *)
      split; [|split; [|split]]; auto.
      * intros kv Hkv. apply elem_of_app in Hkv as [Hkv|Hkv]; auto.
        apply list_elem_of_singleton in Hkv. now subst kv.
      * destruct Hpos as [[Heq Hnone]|(i & Hi & Hgt & Hbefore)].
        -- left. split; auto. intros kv Hkv.
           apply elem_of_app in Hkv as [Hkv|Hkv]; auto.
           apply list_elem_of_singleton in Hkv. subst kv.
           now rewrite <- Heq.
        -- right. exists i.
           pose proof (lookup_lt_Some _ _ _ Hi) as Hlen.
           split; [|split]; auto.
           ++ now rewrite lookup_app_l by lia.
           ++ intros j kv Hj Hji. rewrite lookup_app_l in Hj by lia. eauto.
Qed.

End FirstMax.

(** * Properties of the smoother *)

(** ** What each function does to the state *)

Lemma updateUI_history e conf st :
  emotionHistory (updateUI e conf st) = emotionHistory st.
Proof. unfold updateUI. now destruct (decide (Some e = currentEmotion st)). Qed.

Lemma updateUI_current e conf st :
  currentEmotion (updateUI e conf st) = Some e.
Proof.
  unfold updateUI. now destruct (decide (Some e = currentEmotion st)).
Qed.

Lemma updateEmotionSmoothed_history e conf st :
  emotionHistory (updateEmotionSmoothed e conf st)
  = pushHistory (emotionHistory st) e.
Proof. unfold updateEmotionSmoothed. now rewrite updateUI_history. Qed.

Lemma updateEmotionSmoothed_current e conf st :
  currentEmotion (updateEmotionSmoothed e conf st)
  = Some (dominantOf e (pushHistory (emotionHistory st) e)).
Proof. unfold updateEmotionSmoothed. now rewrite updateUI_current. Qed.



Lemma observeAll_reachable frames st :
  reachable st -> reachable (observeAll frames st).
Proof.
  revert st. induction frames as [|f frames IH]; intros st Hr; simpl; [exact Hr|].
  apply IH. now apply reach_observe.
Qed.

(** ** The history is a window of the last eight labels *)

Lemma pushHistory_nonempty h e : pushHistory h e <> [].
Proof.
  unfold pushHistory, HISTORY_SIZE.
  destruct (8 <? length (h ++ [e]))%nat eqn:Hlen.
  - apply Nat.ltb_lt in Hlen. destruct h as [|x [|y h]]; simpl in *; try lia.
    discriminate.
  - destruct h; discriminate.
Qed.

(** While the window holds at most eight labels, pushing keeps the last
    eight of the extended sequence. *)
Lemma pushHistory_drop h e :
  (length h <= HISTORY_SIZE)%nat ->
  pushHistory h e = drop (length h + 1 - HISTORY_SIZE) (h ++ [e]).
Proof.
  unfold pushHistory, HISTORY_SIZE. intros Hlen. rewrite length_app. simpl.
  destruct (8 <? length h + 1)%nat eqn:Hcmp.
  - apply Nat.ltb_lt in Hcmp.
    replace (length h + 1 - 8)%nat with 1%nat by lia.
    now destruct (h ++ [e]).
  - apply Nat.ltb_ge in Hcmp.
    now replace (length h + 1 - 8)%nat with 0%nat by lia.
Qed.

Lemma pushHistory_length h e :
  (length h <= HISTORY_SIZE)%nat ->
  (length (pushHistory h e) <= HISTORY_SIZE)%nat.
Proof.
  intros Hlen. rewrite pushHistory_drop by exact Hlen.
  rewrite length_drop, length_app. unfold HISTORY_SIZE in *. simpl. lia.
Qed.

Lemma reachable_history_bounded st :
  reachable st -> (length (emotionHistory st) <= HISTORY_SIZE)%nat.
Proof.
  induction 1 as [|e conf st Hr IH|st Hr IH|msg st Hr IH]; simpl.
  - unfold HISTORY_SIZE. lia.
  - rewrite updateEmotionSmoothed_history. now apply pushHistory_length.
  - exact IH.
  - exact IH.
Qed.

Lemma observeAll_history frames st :
  emotionHistory (observeAll frames st)
  = fold_left pushHistory (map fst frames) (emotionHistory st).
Proof.
  revert st. induction frames as [|f frames IH]; intros st; simpl; [reflexivity|].
  now rewrite IH, updateEmotionSmoothed_history.
Qed.

(** After [n] pushes of the same label the window is the last eight entries
    of the old window followed by [n] copies of the label. *)
Lemma pushHistory_repeat e n h :
  (length h <= HISTORY_SIZE)%nat ->
  fold_left pushHistory (replicate n e) h
  = drop (length h + n - HISTORY_SIZE) (h ++ replicate n e).
Proof.
  intros Hlen. induction n as [|n IH].
  - simpl. rewrite app_nil_r.
    replace (length h + 0 - HISTORY_SIZE)%nat with 0%nat by lia. reflexivity.
  - rewrite replicate_S_end, fold_left_app. simpl. rewrite IH.
    set (X := h ++ replicate n e).
    set (d := (length h + n - HISTORY_SIZE)%nat).
    assert (HX : length X = (length h + n)%nat).
    { subst X. now rewrite length_app, length_replicate. }
    assert (Hd : (d <= length X)%nat) by (subst d; lia).
    rewrite pushHistory_drop
      by (rewrite length_drop; subst d; unfold HISTORY_SIZE in *; lia).
    rewrite length_drop, app_assoc. fold X.
    rewrite <- (drop_app_le X [e] d Hd), drop_drop.
    f_equal. subst d. unfold HISTORY_SIZE in *. lia.
Qed.

Lemma pushHistory_saturated e n h :
  (length h <= HISTORY_SIZE)%nat -> (HISTORY_SIZE <= n)%nat ->
  fold_left pushHistory (replicate n e) h = replicate HISTORY_SIZE e.
Proof.
  intros Hlen Hn. rewrite pushHistory_repeat by exact Hlen.
  rewrite drop_app_ge by (unfold HISTORY_SIZE in *; lia).
  rewrite drop_replicate. f_equal. unfold HISTORY_SIZE in *. lia.
Qed.

(** C6: in every reachable state an observation leaves at most eight labels
    in the history; and observing the same label [e] eight plus [k] times,
    [k > 0], whatever the confidences, leaves exactly eight labels, all [e],
    with dominant label [e]. *)
Theorem C6_history_bounded (st : State) (e : Emotion) (confs : list number)
    (k : nat) :
  reachable st ->
  (0 < k)%nat ->
  length confs = (HISTORY_SIZE + k)%nat ->
  (forall e' conf,
     (length (emotionHistory (updateEmotionSmoothed e' conf st))
      <= HISTORY_SIZE)%nat)
  /\ let st' := observeAll (map (fun conf => (e, conf)) confs) st in
     length (emotionHistory st') = HISTORY_SIZE
     /\ emotionHistory st' = replicate HISTORY_SIZE e
     /\ dominantOf e (emotionHistory st') = e
     /\ currentEmotion st' = Some e.
Proof.
  intros Hr Hk Hlen.
  pose proof (reachable_history_bounded st Hr) as Hb.
  split.
  - intros e' conf. rewrite updateEmotionSmoothed_history.
    now apply pushHistory_length.
  - intros st'.
    assert (Hh : emotionHistory st' = replicate HISTORY_SIZE e).
    { subst st'. rewrite observeAll_history, map_map. simpl.
      replace (map (fun _ : number => e) confs)
        with (replicate (length confs) e)
        by (clear; induction confs; simpl; congruence).
      apply pushHistory_saturated; [exact Hb | lia]. }
    assert (Hd : dominantOf e (replicate HISTORY_SIZE e) = e).
    { destruct e; reflexivity. }
    split; [|split; [|split]].
    + rewrite Hh. apply length_replicate.
    + exact Hh.
    + now rewrite Hh.
    + (* the last of the calls set the displayed label *)
      subst st'. destruct confs as [|c0 confs] using rev_ind;
        [simpl in Hlen; unfold HISTORY_SIZE in Hlen; lia|].
      clear IHconfs. rewrite map_app in *. simpl in *.
      unfold observeAll in *. rewrite fold_left_app in *. simpl in *.
      rewrite updateEmotionSmoothed_current.
      rewrite updateEmotionSmoothed_history in Hh.
      rewrite Hh. f_equal. exact Hd.
Qed.

Lemma C6_history_bounded_witness :
  let st' := observeAll (map (fun conf => (happy, conf)) (replicate 9 0.9))
               initialState in
  emotionHistory st' = replicate HISTORY_SIZE happy
  /\ currentEmotion st' = Some happy.
Proof.
  assert (Hlen : length (replicate 9 0.9) = (HISTORY_SIZE + 1)%nat) by reflexivity.
  pose proof (C6_history_bounded initialState happy (replicate 9 0.9) 1
                reach_init (Nat.lt_0_succ 0) Hlen) as [_ (_ & Hh & _ & Hc)].
  split; [exact Hh | exact Hc].
Defined.

(** ** Reset *)




(** ** The confidence shown next to the label *)

Lemma renderedBy_snoc frames f st :
  fold_left renderStep (frames ++ [f]) (st, None)
  = renderStep (fold_left renderStep frames (st, None)) f.
Proof. now rewrite fold_left_app. Qed.

Lemma renderStep_state frames st :
  fst (fold_left renderStep frames (st, None)) = observeAll frames st.
Proof.
  induction frames as [|f frames IH] using rev_ind; [reflexivity|].
  rewrite renderedBy_snoc. unfold observeAll. rewrite fold_left_app. simpl.
  now rewrite IH.
Qed.

(** The percentage on the page is the one computed from the raw confidence of
    the classification during which the page was last rendered, and the label
    on the page is the dominant label of that call. *)
Lemma rendered_confidence frames st f :
  renderedBy frames st = Some f ->
  confidencePct (page (observeAll frames st)) = Math_round (snd f * 100).
Proof.
  unfold renderedBy. revert f.
  induction frames as [|g frames IH] using rev_ind; intros f; [discriminate|].
  rewrite renderedBy_snoc. unfold observeAll. rewrite fold_left_app. simpl.
  pose proof (renderStep_state frames st) as Hst.
  fold (observeAll frames st).
  destruct (fold_left renderStep frames (st, None)) as [st1 prov]. simpl in *.
  subst st1. unfold updateEmotionSmoothed, updateUI. simpl.
  destruct (decide (Some (dominantOf g.1 (pushHistory
              (emotionHistory (observeAll frames st)) g.1))
            = currentEmotion (observeAll frames st))) as [Heq|Hne].
  - simpl. intros Hprov. now apply IH.
  - simpl. intros [= <-]. reflexivity.
Qed.

(** C10, as stated, fails: after a frame classified happy with confidence
    0.9 and a frame classified sad, the dominant label (happy) differs from
    the raw label of the current frame (sad), but [updateUI] returns early;
    the page still shows 90, the percentage of the frame that was classified
    happy, next to the label happy. *)
Lemma C10_suppressed_render_keeps_confidence :
  ~ (forall frames e conf d,
       let st := observeAll frames initialState in
       let st' := updateEmotionSmoothed e conf st in
       fst (smoothedCall e conf st) = d -> d <> e ->
       exists e0 c0,
         renderedBy (frames ++ [(e, conf)]) initialState = Some (e0, c0)
         /\ confidencePct (page st') = Math_round (c0 * 100)
         /\ e0 <> d)
  /\ (let st' := runFrames [Face smileSnapshot; Face frownSnapshot] initialState in
      emotion (classifyEmotion frownSnapshot) = sad
      /\ emotionName (page st') = Some happy
      /\ confidencePct (page st')
         = Math_round (confidence (classifyEmotion smileSnapshot) * 100)
      /\ confidencePct (page st') = 90).
Proof.
  split.
  - intros H.
    destruct (H [(happy, 0.9)] sad 0.5 happy) as (e0 & c0 & Hby & _ & Hne).
    + reflexivity.
    + discriminate.
    + vm_compute in Hby. injection Hby as <- _. now apply Hne.
  - vm_compute. repeat split; reflexivity.
Qed.

(** C10, amended: [updateEmotionSmoothed] always calls [updateUI] with the
    dominant label and the raw confidence of the current frame.  When the
    dominant label differs from the label shown before, the page is rendered
    with that label and the percentage of the raw confidence, which describes
    the raw label even if the dominant label is another one; when the
    dominant label is the one shown before, the page is left as it was. *)
Theorem C10_raw_confidence_forwarded (st : State) (e : Emotion) (conf : number) :
  let d := dominantOf e (pushHistory (emotionHistory st) e) in
  let st' := updateEmotionSmoothed e conf st in
  smoothedCall e conf st = (d, conf)
  /\ st' = updateUI d conf
             {| currentEmotion := currentEmotion st;
                emotionHistory := pushHistory (emotionHistory st) e;
                page := page st |}
  /\ currentEmotion st' = Some d
  /\ (Some d <> currentEmotion st ->
      emotionName (page st') = Some d
      /\ confidencePct (page st') = Math_round (conf * 100))
  /\ (Some d = currentEmotion st -> page st' = page st).
Proof.
  intros d st'. split; [reflexivity|]. split; [reflexivity|]. split.
  - subst st' d. apply updateEmotionSmoothed_current.
  - subst st'. unfold updateEmotionSmoothed, updateUI. simpl. fold d.
    destruct (decide (Some d = currentEmotion st)) as [Heq|Hne]; simpl.
    + split; [intros Hc; now destruct Hc | reflexivity].
    + split; [intros _; split; reflexivity | intros Hc; now destruct Hne].
Qed.

Lemma C10_raw_confidence_forwarded_witness :
  let st := runFrames [Face frownSnapshot; Face frownSnapshot; NoFace]
              initialState in
  let st' := updateEmotionSmoothed happy 0.9 st in
  Some sad <> currentEmotion st
  /\ emotionName (page st') = Some sad
  /\ confidencePct (page st') = Math_round (0.9 * 100).
Proof.
  intros st st'.
  assert (Hne : Some sad <> currentEmotion st) by discriminate.
  split; [exact Hne|].
  exact (proj1 (proj2 (proj2 (proj2
           (C10_raw_confidence_forwarded st happy 0.9)))) Hne).
Defined.

(** ** The frequency table *)

Lemma countFreq_snoc h e : countFreq (h ++ [e]) = bump e (countFreq h).
Proof. unfold countFreq. now rewrite fold_left_app. Qed.

Lemma firstSeen_snoc h e :
  firstSeen (h ++ [e])
  = if decide (e ∈ firstSeen h) then firstSeen h else firstSeen h ++ [e].
Proof. unfold firstSeen. now rewrite fold_left_app. Qed.

Lemma firstSeen_elem h k : k ∈ firstSeen h <-> k ∈ h.
Proof.
  induction h as [|e h IH] using rev_ind; [reflexivity|].
  rewrite firstSeen_snoc, elem_of_app, list_elem_of_singleton.
  destruct (decide (e ∈ firstSeen h)) as [Hin|Hnin].
  - rewrite IH. split; [tauto|]. intros [Hk| ->]; [assumption|]. now apply IH.
  - rewrite elem_of_app, list_elem_of_singleton, IH. reflexivity.
Qed.

Lemma firstSeen_NoDup h : NoDup (firstSeen h).
Proof.
  induction h as [|e h IH] using rev_ind; [constructor|].
  rewrite firstSeen_snoc. destruct (decide (e ∈ firstSeen h)) as [Hin|Hnin].
  - exact IH.
  - apply NoDup_app. split; [exact IH|]. split.
    + intros x Hx Hxe. apply list_elem_of_singleton in Hxe. now subst x.
    + apply NoDup_singleton.
Qed.

Lemma occurrences_snoc k h e :
  occurrences k (h ++ [e])
  = (occurrences k h + if decide (e = k) then 1 else 0)%nat.
Proof.
  unfold occurrences. rewrite filter_app, length_app. f_equal.
  rewrite filter_cons, filter_nil. now destruct (decide (e = k)).
Qed.

Lemma occurrences_absent k h : k ∉ h -> occurrences k h = 0%nat.
Proof.
  intros Hk. unfold occurrences.
  induction h as [|x h IH]; [reflexivity|].
  apply not_elem_of_cons in Hk as [Hne Hk].
  rewrite filter_cons. destruct (decide (x = k)); [congruence|]. now apply IH.
Qed.

Lemma occurrences_present k h : k ∈ h -> (0 < occurrences k h)%nat.
Proof.
  intros Hk. unfold occurrences.
  induction h as [|x h IH]; [inversion Hk|].
  rewrite filter_cons. destruct (decide (x = k)) as [->|Hne]; simpl; [lia|].
  apply elem_of_cons in Hk as [->|Hk]; [congruence|]. now apply IH.
Qed.

(** [bump] on a table whose keys are distinct. *)
Lemma bump_present e (cnt : Emotion -> nat) ks :
  e ∈ ks -> NoDup ks ->
  bump e (map (fun k => (k, cnt k)) ks)
  = map (fun k => (k, if decide (k = e) then S (cnt k) else cnt k)) ks.
Proof.
  induction ks as [|x ks IH]; intros Hin Hnd; [inversion Hin|].
  apply NoDup_cons in Hnd as [Hx Hnd]. simpl.
  destruct (decide (x = e)) as [->|Hne].
  - f_equal. apply map_ext_in. intros k Hk.
    destruct (decide (k = e)) as [->|]; [|reflexivity].
    exfalso. apply Hx. now apply list_elem_of_In.
  - f_equal. apply IH; [|exact Hnd].
    apply elem_of_cons in Hin as [->|Hin]; [congruence|exact Hin].
Qed.

Lemma bump_absent e (cnt : Emotion -> nat) ks :
  e ∉ ks ->
  bump e (map (fun k => (k, cnt k)) ks)
  = map (fun k => (k, cnt k)) ks ++ [(e, 1%nat)].
Proof.
  induction ks as [|x ks IH]; intros Hnin; [reflexivity|].
  apply not_elem_of_cons in Hnin as [Hne Hnin]. simpl.
  destruct (decide (x = e)); [congruence|]. f_equal. now apply IH.
Qed.

(** The table lists the distinct labels in the order of their first
    occurrence, each with its number of occurrences. *)
Lemma countFreq_spec h :
  countFreq h = map (fun k => (k, occurrences k h)) (firstSeen h).
Proof.
  induction h as [|e h IH] using rev_ind; [reflexivity|].
  rewrite countFreq_snoc, IH, firstSeen_snoc.
  destruct (decide (e ∈ firstSeen h)) as [Hin|Hnin].
  - rewrite bump_present by (auto using firstSeen_NoDup).
    apply map_ext. intros k. rewrite occurrences_snoc.
    destruct (decide (k = e)) as [->|Hne].
    + rewrite decide_True by reflexivity. f_equal. lia.
    + rewrite decide_False by congruence. f_equal. lia.
  - rewrite bump_absent by exact Hnin. rewrite map_app. simpl.
    f_equal.
    + apply map_ext_in. intros k Hk. rewrite occurrences_snoc.
      rewrite decide_False; [f_equal; lia|].
      intros ->. apply Hnin. now apply list_elem_of_In.
    + rewrite occurrences_snoc, decide_True by reflexivity.
      rewrite occurrences_absent; [reflexivity|].
      intros He. apply Hnin. now apply firstSeen_elem.
Qed.

(** ** First positions *)

Lemma firstIndex_lt a h n : firstIndex a h = Some n -> (n < length h)%nat.
Proof.
  revert n. induction h as [|x h IH]; intros n; simpl; [discriminate|].
  destruct (decide (x = a)).
  - intros [= <-]. lia.
  - destruct (firstIndex a h) as [m|]; simpl; [|discriminate].
    intros [= <-]. specialize (IH m eq_refl). lia.
Qed.

Lemma firstIndex_present a h : a ∈ h -> is_Some (firstIndex a h).
Proof.
  induction h as [|x h IH]; intros Ha; [inversion Ha|]. simpl.
  destruct (decide (x = a)); [eauto|].
  apply elem_of_cons in Ha as [->|Ha]; [congruence|].
  destruct (IH Ha) as [m ->]. simpl. eauto.
Qed.

Lemma firstIndex_absent a h : a ∉ h -> firstIndex a h = None.
Proof.
  induction h as [|x h IH]; intros Ha; [reflexivity|]. simpl.
  apply not_elem_of_cons in Ha as [Hne Ha].
  destruct (decide (x = a)); [congruence|]. now rewrite IH.
Qed.

Lemma firstIndex_snoc a h e :
  firstIndex a (h ++ [e])
  = match firstIndex a h with
    | Some n => Some n
    | None => if decide (e = a) then Some (length h) else None
    end.
Proof.
  induction h as [|x h IH]; simpl.
  - now destruct (decide (e = a)).
  - destruct (decide (x = a)); [reflexivity|]. rewrite IH.
    destruct (firstIndex a h); simpl; [reflexivity|].
    now destruct (decide (e = a)).
Qed.

(** The keys of the table are sorted by first position in the history. *)
Lemma firstSeen_order h i j a b :
  firstSeen h !! i = Some a -> firstSeen h !! j = Some b -> (i < j)%nat ->
  exists n m, firstIndex a h = Some n /\ firstIndex b h = Some m /\ (n < m)%nat.
Proof.
  revert i j a b. induction h as [|e h IH] using rev_ind; intros i j a b.
  - intros Hi. destruct i; discriminate.
  - rewrite firstSeen_snoc. destruct (decide (e ∈ firstSeen h)) as [Hin|Hnin].
    + intros Hi Hj Hij. destruct (IH i j a b Hi Hj Hij) as (n & m & Hn & Hm & Hnm).
      exists n, m. rewrite !firstIndex_snoc, Hn, Hm. auto.
    + intros Hi Hj Hij.
      pose proof (lookup_lt_Some _ _ _ Hj) as Hjlen.
      rewrite length_app in Hjlen. simpl in Hjlen.
      rewrite lookup_app_l in Hi by lia.
      destruct (decide (j < length (firstSeen h))%nat) as [Hjl|Hjl].
      * rewrite lookup_app_l in Hj by lia.
        destruct (IH i j a b Hi Hj Hij) as (n & m & Hn & Hm & Hnm).
        exists n, m. rewrite !firstIndex_snoc, Hn, Hm. auto.
      * rewrite lookup_app_r in Hj by lia.
        replace (j - length (firstSeen h))%nat with 0%nat in Hj by lia.
        injection Hj as <-.
        assert (Ha : a ∈ h).
        { apply firstSeen_elem. eapply list_elem_of_lookup_2; eauto. }
        destruct (firstIndex_present a h Ha) as [n Hn].
        exists n, (length h). rewrite !firstIndex_snoc, Hn.
        rewrite firstIndex_absent
          by (intros He; apply Hnin; now apply firstSeen_elem).
        rewrite decide_True by reflexivity.
        split; [reflexivity|]. split; [reflexivity|].
        now apply firstIndex_lt in Hn.
Qed.

(** ** The dominant label *)

(** The dominant loop, read through [firstMax_spec]. *)
Lemma dominant_loop (freq : list (Emotion * nat)) (e0 : Emotion) :
  let r := fold_left domStep freq (e0, 0%nat) in
  (forall kv, kv ∈ freq -> (snd kv <= snd r)%nat)
  /\ ((r = (e0, 0%nat) /\ forall kv, kv ∈ freq -> snd kv = 0%nat)
      \/ exists i, freq !! i = Some r
                   /\ forall j kv, freq !! j = Some kv -> (j < i)%nat ->
                                   (snd kv < snd r)%nat).
Proof.
  pose proof (firstMax_spec (K := Emotion) Nat.ltb (fun _ => True)) as H.
  specialize (H (fun a _ => Nat.ltb_irrefl a)).
  assert (Htrans : forall a b c : nat, True -> True -> True ->
            (a <? b)%nat = true -> (b <? c)%nat = true -> (a <? c)%nat = true).
  { intros a b c _ _ _ Hab Hbc.
    apply Nat.ltb_lt in Hab, Hbc. apply Nat.ltb_lt. lia. }
  assert (Hneg : forall a b c : nat, True -> True -> True ->
            (a <? b)%nat = false -> (b <? c)%nat = false -> (a <? c)%nat = false).
  { intros a b c _ _ _ Hab Hbc.
    apply Nat.ltb_ge in Hab, Hbc. apply Nat.ltb_ge. lia. }
  specialize (H Htrans Hneg freq (e0, 0%nat) I).
  assert (Hall : Forall (fun kv : Emotion * nat => True) freq).
  { apply Forall_forall. auto. }
  specialize (H Hall). cbv zeta in H.
  change (fold_left _ freq (e0, 0%nat))
    with (fold_left domStep freq (e0, 0%nat)) in H.
  intros r. fold r in H. destruct H as (_ & _ & Hmax & Hpos). split.
  - intros kv Hkv. specialize (Hmax kv Hkv). apply Nat.ltb_ge in Hmax. exact Hmax.
  - destruct Hpos as [[Heq Hnone]|(i & Hi & _ & Hbefore)].
    + left. split; [exact Heq|]. intros kv Hkv.
      specialize (Hnone kv Hkv). apply Nat.ltb_ge in Hnone. simpl in Hnone. lia.
    + right. exists i. split; [exact Hi|]. intros j kv Hj Hji.
      specialize (Hbefore j kv Hj Hji). now apply Nat.ltb_lt in Hbefore.
Qed.

(** For a non-empty history the label picked by the dominant loop occurs in
    the history, no label occurs more often, and every other label occurring
    as often has its first occurrence later in the history. *)
Lemma dominantOf_first_most_frequent (e0 : Emotion) (h : list Emotion) :
  h <> [] ->
  let d := dominantOf e0 h in
  d ∈ h
  /\ (forall e, (occurrences e h <= occurrences d h)%nat)
  /\ (forall e, e <> d -> occurrences e h = occurrences d h ->
        exists n m, firstIndex d h = Some n /\ firstIndex e h = Some m
                    /\ (n < m)%nat).
Proof.
  intros Hne d.
  destruct (dominant_loop (countFreq h) e0) as [Hmax Hpos].
  set (r := fold_left domStep (countFreq h) (e0, 0%nat)) in *.
  assert (Hd : d = fst r) by reflexivity.
  rewrite countFreq_spec in Hmax, Hpos.
  (* the table is not empty and holds positive counts only *)
  destruct Hpos as [[_ Hnone]|(i & Hi & Hbefore)].
  { exfalso. destruct h as [|x h]; [congruence|].
    assert (Hx : x ∈ x :: h) by (apply elem_of_cons; auto).
    specialize (Hnone (x, occurrences x (x :: h))).
    simpl in Hnone. apply occurrences_present in Hx.
    rewrite Hnone in Hx; [lia|].
    apply (list_elem_of_fmap_2 (fun k => (k, occurrences k (x :: h)))).
    apply firstSeen_elem. apply elem_of_cons; auto. }
  apply list_lookup_fmap_Some in Hi as (k & Hr & Hk).
  assert (Hdk : d = k) by (rewrite Hd, Hr; reflexivity).
  subst k.
  assert (Hcount : snd r = occurrences d h) by (rewrite Hr; reflexivity).
  assert (Hin : d ∈ h).
  { apply firstSeen_elem. eapply list_elem_of_lookup_2; eauto. }
  split; [exact Hin|]. split.
  - intros e. destruct (decide (e ∈ h)) as [He|He].
    + rewrite <- Hcount.
      apply (Hmax (e, occurrences e h)).
      apply (list_elem_of_fmap_2 (fun k => (k, occurrences k h))).
      now apply firstSeen_elem.
    + rewrite (occurrences_absent e h He). lia.
  - intros e Hed Heq.
    assert (He : e ∈ h).
    { destruct (decide (e ∈ h)) as [He|He]; [exact He|].
      rewrite (occurrences_absent e h He) in Heq.
      apply occurrences_present in Hin. lia. }
    apply firstSeen_elem in He.
    apply list_elem_of_lookup_1 in He as [j Hj].
    destruct (Nat.lt_trichotomy j i) as [Hlt|[->|Hgt]].
    + exfalso.
      assert (Hje : map (fun k => (k, occurrences k h)) (firstSeen h) !! j
                    = Some (e, occurrences e h)).
      { rewrite list_lookup_fmap, Hj. reflexivity. }
      specialize (Hbefore j _ Hje Hlt). simpl in Hbefore. lia.
    + congruence.
    + now apply (firstSeen_order h i j d e).
Qed.

(** C8: after every call of [updateEmotionSmoothed] the history is not
    empty, and the label passed to [updateUI], which is the label displayed
    afterwards, occurs in the history, occurs there at least as often as any
    label, and has its first occurrence before that of every other label
    occurring as often. *)
Theorem C8_dominant_most_frequent_first_seen (st : State) (e : Emotion)
    (conf : number) :
  let st' := updateEmotionSmoothed e conf st in
  let h := emotionHistory st' in
  h <> []
  /\ exists d,
       fst (smoothedCall e conf st) = d
       /\ currentEmotion st' = Some d
       /\ d ∈ h
       /\ (forall e', (occurrences e' h <= occurrences d h)%nat)
       /\ (forall e', e' <> d -> occurrences e' h = occurrences d h ->
             exists n m, firstIndex d h = Some n /\ firstIndex e' h = Some m
                         /\ (n < m)%nat).
Proof.
  intros st' h. subst h st'.
  rewrite updateEmotionSmoothed_history, updateEmotionSmoothed_current.
  pose proof (pushHistory_nonempty (emotionHistory st) e) as Hne.
  split; [exact Hne|].
  exists (dominantOf e (pushHistory (emotionHistory st) e)).
  split; [reflexivity|]. split; [reflexivity|].
  exact (dominantOf_first_most_frequent e _ Hne).
Qed.

(** The tie of the smoother scenario: four times happy and four times sad,
    happy seen first, is resolved to happy. *)
Example smoother_tie_scenario :
  currentEmotion
    (observeAll (map (fun l => (l, 0.5))
                   [happy; happy; sad; happy; sad; sad; sad; happy])
       initialState)
  = Some happy.
Proof. vm_compute. reflexivity. Qed.

(** * The order of binary64 numbers *)

(** Comparison of numbers that are not NaN is comparison of their keys. *)
Section FloatOrder.

Local Open Scope Z_scope.

Lemma SFcompare_key x y :
  x <> S754_nan -> y <> S754_nan ->
  (SFcompare x y = Some Lt <-> lexlt (orderKey x) (orderKey y))
  /\ (SFcompare x y = Some Gt <-> lexlt (orderKey y) (orderKey x))
  /\ (SFcompare x y = Some Eq <-> orderKey x = orderKey y).
Proof.
  intros Hx Hy.
  destruct x as [sx|sx| |sx mx ex], y as [sy|sy| |sy my ey];
    try congruence; clear Hx Hy;
    try destruct sx; try destruct sy; simpl;
    try (repeat split; intros; try discriminate; try lia; try congruence;
         reflexivity).
  - destruct (Z.compare_spec ex ey) as [He|He|He];
      [ change (Pos.compare_cont Eq mx my) with (Pos.compare mx my);
        destruct (Pos.compare_spec mx my) as [Hm|Hm|Hm] | | ];
      simpl; repeat split; intros H; try discriminate; try lia;
      try (injection H; lia); try (f_equal; congruence); try reflexivity.
  - destruct (Z.compare_spec ex ey) as [He|He|He];
      [ change (Pos.compare_cont Eq mx my) with (Pos.compare mx my);
        destruct (Pos.compare_spec mx my) as [Hm|Hm|Hm] | | ];
      simpl; repeat split; intros H; try discriminate; try lia;
      try (injection H; lia); try (f_equal; congruence); try reflexivity.
Qed.

Lemma Prim2SF_not_nan (x : float) : is_nan x = false -> Prim2SF x <> S754_nan.
Proof.
  intros Hx. unfold Prim2SF. rewrite Hx.
  destruct (is_zero x); [discriminate|].
  destruct (is_infinity x); [discriminate|].
  destruct (Z.frexp x) as [r e].
  match goal with
  | |- context [shr_fexp ?p ?em ?m ?ex ?loc] =>
      destruct (shr_fexp p em m ex loc) as [shr e']
  end.
  destruct (shr_m shr); discriminate.
Qed.

Lemma ltb_key (x y : float) :
  is_nan x = false -> is_nan y = false ->
  (x <? y)%float = true <-> lexlt (orderKey (Prim2SF x)) (orderKey (Prim2SF y)).
Proof.
  intros Hx Hy. apply Prim2SF_not_nan in Hx, Hy.
  rewrite FloatAxioms.ltb_spec. unfold SFltb.
  destruct (SFcompare_key _ _ Hx Hy) as (Hlt & Hgt & Heq).
  rewrite <- Hlt.
  destruct (SFcompare (Prim2SF x) (Prim2SF y)) as [[| |]|];
    split; intros H; congruence.
Qed.

Lemma leb_key (x y : float) :
  is_nan x = false -> is_nan y = false ->
  (x <=? y)%float = true <-> ~ lexlt (orderKey (Prim2SF y)) (orderKey (Prim2SF x)).
Proof.
  intros Hx Hy. apply Prim2SF_not_nan in Hx, Hy.
  rewrite FloatAxioms.leb_spec. unfold SFleb.
  destruct (SFcompare_key _ _ Hx Hy) as (Hlt & Hgt & Heq).
  rewrite <- Hgt.
  assert (Hsome : SFcompare (Prim2SF x) (Prim2SF y) <> None).
  { destruct (Prim2SF x) as [[|]|[|]| |[|]], (Prim2SF y) as [[|]|[|]| |[|]];
      simpl; congruence. }
  destruct (SFcompare (Prim2SF x) (Prim2SF y)) as [[| |]|];
    split; intros H; congruence.
Qed.

Lemma ltb_irrefl (x : float) : is_nan x = false -> (x <? x)%float = false.
Proof.
  intros Hx. destruct (x <? x)%float eqn:H; [|reflexivity].
  apply (ltb_key x x Hx Hx) in H.
  unfold lexlt in H. destruct (orderKey (Prim2SF x)) as [[a b] c]. lia.
Qed.

Lemma ltb_trans (x y z : float) :
  is_nan x = false -> is_nan y = false -> is_nan z = false ->
  (x <? y)%float = true -> (y <? z)%float = true -> (x <? z)%float = true.
Proof.
  intros Hx Hy Hz Hxy Hyz.
  apply (ltb_key x y Hx Hy) in Hxy. apply (ltb_key y z Hy Hz) in Hyz.
  apply (ltb_key x z Hx Hz). unfold lexlt in *.
  destruct (orderKey (Prim2SF x)) as [[a1 a2] a3], (orderKey (Prim2SF y)) as [[b1 b2] b3],
    (orderKey (Prim2SF z)) as [[c1 c2] c3]. lia.
Qed.

Lemma ltb_negtrans (x y z : float) :
  is_nan x = false -> is_nan y = false -> is_nan z = false ->
  (x <? y)%float = false -> (y <? z)%float = false -> (x <? z)%float = false.
Proof.
  intros Hx Hy Hz Hxy Hyz.
  destruct (x <? z)%float eqn:Hxz; [|reflexivity].
  apply (ltb_key x z Hx Hz) in Hxz.
  assert (Hxy' : ~ lexlt (orderKey (Prim2SF x)) (orderKey (Prim2SF y))).
  { intros H. apply (ltb_key x y Hx Hy) in H. congruence. }
  assert (Hyz' : ~ lexlt (orderKey (Prim2SF y)) (orderKey (Prim2SF z))).
  { intros H. apply (ltb_key y z Hy Hz) in H. congruence. }
  unfold lexlt in *.
  destruct (orderKey (Prim2SF x)) as [[a1 a2] a3], (orderKey (Prim2SF y)) as [[b1 b2] b3],
    (orderKey (Prim2SF z)) as [[c1 c2] c3]. lia.
Qed.

(** On numbers, [a <= b] is the negation of [b < a]. *)
Lemma leb_not_ltb (x y : float) :
  is_nan x = false -> is_nan y = false ->
  (y <? x)%float = false -> (x <=? y)%float = true.
Proof.
  intros Hx Hy Hyx. apply (leb_key x y Hx Hy). intros H.
  apply (ltb_key y x Hy Hx) in H. congruence.
Qed.

End FloatOrder.

(** * The winner of the classifier *)

(** The six entries of the score table, by position. *)
Lemma scoresOf_lookup snap e :
  scoresOf snap !! enumIndex e = Some (e, scoreIn (scoresOf snap) e).
Proof. destruct e; reflexivity. Qed.

Lemma scoresOf_entries snap i kv :
  scoresOf snap !! i = Some kv ->
  i = enumIndex (fst kv) /\ snd kv = scoreIn (scoresOf snap) (fst kv).
Proof.
  intros Hi.
  do 6 (destruct i as [|i]; [injection Hi as <-; split; reflexivity|]).
  discriminate.
Qed.

Lemma scoresOf_clamped snap e : exists x, scoreIn (scoresOf snap) e = clamp x.
Proof. destruct e; eexists; reflexivity. Qed.

Lemma clamp_not_negative x : (clamp x <? 0) = false.
Proof. unfold clamp. destruct (x <? 0) eqn:Hx; [reflexivity|exact Hx]. Qed.

(** A clamped score that is a number is above the initial [bestScore]. *)
Lemma clamp_above_initial x : is_nan (clamp x) = false -> (-1 <? clamp x) = true.
Proof.
  intros Hx. destruct (-1 <? clamp x) eqn:H; [reflexivity|].
  assert (Hc : (-1 <? 0) = false).
  { apply (ltb_negtrans (-1) (clamp x) 0); auto using clamp_not_negative. }
  vm_compute in Hc. discriminate.
Qed.

(** The winner loop over the score table, when every score is a number. *)
Lemma findWinner_spec snap :
  (forall e, is_nan (scoreIn (scoresOf snap) e) = false) ->
  let sc := scoresOf snap in
  let w := fst (findWinner sc) in
  snd (findWinner sc) = scoreIn sc w
  /\ (forall e, (scoreIn sc e <=? scoreIn sc w) = true)
  /\ (forall e, (enumIndex e < enumIndex w)%nat ->
                (scoreIn sc e <? scoreIn sc w) = true).
Proof.
  intros Hnan sc w.
  assert (Hok : Forall (fun kv : Emotion * float => is_nan (snd kv) = false) sc).
  { apply Forall_forall. intros kv Hkv.
    apply list_elem_of_lookup_1 in Hkv as [i Hi].
    apply scoresOf_entries in Hi as [_ ->]. apply Hnan. }
  pose proof (firstMax_spec (K := Emotion) PrimFloat.ltb
                (fun v => is_nan v = false) ltb_irrefl ltb_trans ltb_negtrans
                sc (neutral, -1) eq_refl Hok) as H.
  cbv zeta in H.
  change (fold_left _ sc (neutral, -1)) with (findWinner sc) in H.
  destruct H as (Hr & _ & Hmax & Hpos).
  destruct Hpos as [[_ Hnone]|(i & Hi & _ & Hbefore)].
  { exfalso.
    assert (Hin : (happy, scoreIn sc happy) ∈ sc).
    { eapply list_elem_of_lookup_2. apply (scoresOf_lookup snap happy). }
    specialize (Hnone _ Hin). cbn [fst snd] in Hnone.
    destruct (scoresOf_clamped snap happy) as [x Hx].
    pose proof (Hnan happy) as Hh.
    subst sc. rewrite Hx in Hh, Hnone.
    rewrite (clamp_above_initial x Hh) in Hnone. discriminate. }
  apply scoresOf_entries in Hi as Hw. destruct Hw as [Hiw Hsw].
  fold sc w in Hiw, Hsw. split; [exact Hsw|]. rewrite <- Hsw. split.
  - intros e. apply leb_not_ltb; [apply Hnan | exact Hr |].
    apply (Hmax (e, scoreIn sc e)).
    eapply list_elem_of_lookup_2. apply (scoresOf_lookup snap e).
  - intros e He.
    apply (Hbefore (enumIndex e) (e, scoreIn sc e)); [|lia].
    apply (scoresOf_lookup snap e).
Qed.

(** C7, as stated, fails: on the NaN snapshot all six scores are the same
    value (NaN) and the result is neutral, the last label of the enumeration;
    no score is below or equal to the score of the label returned. *)
Lemma C7_nan_scores_no_first_greatest :
  ~ (forall snap, winnerIsFirstGreatest snap)
  /\ (forall e, scoreIn (scoresOf nanSnapshot) e
                = scoreIn (scoresOf nanSnapshot) happy)
  /\ emotion (classifyEmotion nanSnapshot) = neutral.
Proof.
  split; [|split].
  - intros H. destruct (H nanSnapshot) as [Hle _].
    specialize (Hle happy). vm_compute in Hle. discriminate.
  - intros e. destruct e; vm_compute; reflexivity.
  - vm_compute. reflexivity.
Qed.

(** C7, amended: for every snapshot whose six post-clamp scores are numbers
    (none is NaN), the label returned has a score above or equal to every
    score and strictly above the score of every label that precedes it in
    the order happy, excited, surprised, sad, angry, neutral; the confidence
    is computed from that score. *)
Theorem C7_first_greatest_score (snap : list Category) :
  (forall e, is_nan (scoreIn (scoresOf snap) e) = false) ->
  winnerIsFirstGreatest snap
  /\ confidence (classifyEmotion snap)
     = Math_min (scoreIn (scoresOf snap) (emotion (classifyEmotion snap)) / 1.5) 1.
Proof.
  intros Hnan. unfold winnerIsFirstGreatest.
  set (sc := scoresOf snap). set (w := emotion (classifyEmotion snap)).
  destruct (findWinner_spec snap Hnan) as (Hs & Hmax & Hfirst).
  fold sc in Hs, Hmax, Hfirst.
  assert (Hw : w = fst (findWinner sc)).
  { subst w. unfold classifyEmotion. fold sc. now destruct (findWinner sc). }
  rewrite <- Hw in Hs, Hmax, Hfirst.
  split; [split; [exact Hmax | exact Hfirst]|].
  unfold classifyEmotion. fold sc. rewrite <- Hs.
  now destruct (findWinner sc).
Qed.

Lemma C7_first_greatest_score_witness :
  (forall e, is_nan (scoreIn (scoresOf surprisedSnapshot) e) = false)
  /\ winnerIsFirstGreatest surprisedSnapshot.
Proof.
  assert (H : forall e, is_nan (scoreIn (scoresOf surprisedSnapshot) e) = false).
  { intros e. destruct e; vm_compute; reflexivity. }
  split; [exact H|].
  exact (proj1 (C7_first_greatest_score surprisedSnapshot H)).
Defined.

(** * The range of the confidence *)

(** The results of the binary64 operations that matter below are traced
    through their specification on [spec_float]. *)
Section Rounding.

Local Open Scope Z_scope.

Lemma iter_pos_invariant {A : Type} (P : A -> Prop) (f : A -> A) :
  (forall x, P x -> P (f x)) -> forall n x, P x -> P (SpecFloat.iter_pos f n x).
Proof.
  intros Hf n. induction n as [n IH|n IH|]; intros x Hx; simpl; auto.
Qed.

Lemma shr_1_nonneg mrs : 0 <= shr_m mrs -> 0 <= shr_m (shr_1 mrs).
Proof.
  destruct mrs as [m r s]. simpl.
  destruct m as [|[p|p|]|[p|p|]]; simpl; lia.
Qed.

Lemma shr_fexp_nonneg m e l :
  0 <= m -> 0 <= shr_m (fst (shr_fexp prec emax m e l)).
Proof.
  intros Hm. unfold shr_fexp, shr.
  assert (H0 : 0 <= shr_m (shr_record_of_loc m l)).
  { destruct l as [|[| |]]; exact Hm. }
  destruct (fexp prec emax (Zdigits2 m + e) - e); simpl; try exact H0.
  apply (iter_pos_invariant (fun mrs => 0 <= shr_m mrs)); auto using shr_1_nonneg.
Qed.

Lemma round_nearest_even_nonneg m l : 0 <= m -> 0 <= round_nearest_even m l.
Proof.
  intros Hm. unfold round_nearest_even.
  destruct l as [|[| |]]; try destruct (Z.even m); lia.
Qed.

Lemma binary_round_aux_nonneg m e l :
  0 <= m -> nonnegative (binary_round_aux prec emax false m e l).
Proof.
  intros Hm. unfold binary_round_aux.
  pose proof (shr_fexp_nonneg m e l Hm) as H1.
  destruct (shr_fexp prec emax m e l) as [mrs' e']. simpl in H1.
  pose proof (shr_fexp_nonneg
                (round_nearest_even (shr_m mrs') (loc_of_shr_record mrs')) e'
                loc_Exact (round_nearest_even_nonneg _ _ H1)) as H2.
  destruct (shr_fexp prec emax _ e' loc_Exact) as [mrs'' e'']. simpl in H2.
  destruct (shr_m mrs'') as [|p|p]; simpl; [exact I| |lia].
  now destruct (e'' <=? emax - prec).
Qed.

Lemma SFdiv_core_nonneg mx ex my ey :
  0 <= fst (fst (SFdiv_core_binary prec emax (Z.pos mx) ex (Z.pos my) ey)).
Proof.
  unfold SFdiv_core_binary.
  set (s := ex - ey - _).
  set (m' := match s with Z.pos _ => Z.shiftl (Z.pos mx) s | 0 => Z.pos mx
             | Z.neg _ => 0 end).
  assert (Hm' : 0 <= m').
  { subst m'. destruct s; try lia. apply Z.shiftl_nonneg. lia. }
  pose proof (Z.div_pos m' (Z.pos my) Hm' ltac:(lia)) as Hq.
  unfold Z.div in Hq. destruct (Z.div_eucl m' (Z.pos my)) as [q r]. exact Hq.
Qed.

(** Dividing a number that is not negative by a positive finite number gives
    a number that is not negative. *)
Lemma SFdiv_nonneg x my ey :
  nonnegative x -> nonnegative (SFdiv prec emax x (S754_finite false my ey)).
Proof.
  destruct x as [s|[|]| |[|] mx ex]; simpl; try tauto; intros _.
  pose proof (SFdiv_core_nonneg mx ex my ey) as Hq.
  destruct (SFdiv_core_binary prec emax (Z.pos mx) ex (Z.pos my) ey)
    as [[mz ez] lz].
  now apply binary_round_aux_nonneg.
Qed.

Lemma nonneg_of_float (x : float) :
  is_nan x = false -> (x <? 0)%float = false -> nonnegative (Prim2SF x).
Proof.
  intros Hnan Hlt. apply Prim2SF_not_nan in Hnan.
  rewrite FloatAxioms.ltb_spec in Hlt. unfold SFltb in Hlt.
  change (Prim2SF 0%float) with (S754_zero false) in Hlt.
  destruct (Prim2SF x) as [s|[|]| |[|] m e]; simpl in *;
    try exact I; try congruence; discriminate.
Qed.

Lemma float_of_nonneg (x : float) :
  nonnegative (Prim2SF x) -> is_nan x = false /\ (x <? 0)%float = false.
Proof.
  intros Hx. split.
  - unfold is_nan. rewrite FloatAxioms.eqb_spec. unfold SFeqb.
    assert (Hn : Prim2SF x <> S754_nan) by (intros H; now rewrite H in Hx).
    destruct (SFcompare_key _ _ Hn Hn) as (_ & _ & [_ Heq]). now rewrite Heq.
  - rewrite FloatAxioms.ltb_spec. unfold SFltb.
    change (Prim2SF 0%float) with (S754_zero false).
    destruct (Prim2SF x) as [s|[|]| |[|] m e]; simpl in *; tauto.
Qed.

(** [bestScore / 1.5] is a number that is not negative when [bestScore] is. *)
Lemma div_not_negative (b : float) :
  is_nan b = false -> (b <? 0)%float = false ->
  is_nan (b / 1.5)%float = false /\ (b / 1.5 <? 0)%float = false.
Proof.
  intros Hnan Hlt. apply float_of_nonneg. rewrite FloatAxioms.div_spec.
  assert (H15 : exists m e, Prim2SF 1.5%float = S754_finite false m e).
  { eexists _, _. vm_compute. reflexivity. }
  destruct H15 as (m & e & ->).
  apply SFdiv_nonneg. now apply nonneg_of_float.
Qed.

End Rounding.

(** ** Comparisons that involve NaN *)

Lemma Prim2SF_nan (x : float) : is_nan x = true -> Prim2SF x = S754_nan.
Proof. intros Hx. unfold Prim2SF. now rewrite Hx. Qed.

Lemma ltb_nan_r (x y : float) : is_nan y = true -> (x <? y) = false.
Proof.
  intros Hy. rewrite FloatAxioms.ltb_spec, (Prim2SF_nan y Hy).
  unfold SFltb. now destruct (Prim2SF x).
Qed.

Lemma ltb_nan_l (x y : float) : is_nan x = true -> (x <? y) = false.
Proof.
  intros Hx. rewrite FloatAxioms.ltb_spec, (Prim2SF_nan x Hx). reflexivity.
Qed.

Lemma ltb_numbers (x y : float) :
  (x <? y) = true -> is_nan x = false /\ is_nan y = false.
Proof.
  intros Hlt. split.
  - destruct (is_nan x) eqn:Hx; [|reflexivity].
    rewrite (ltb_nan_l x y Hx) in Hlt. discriminate.
  - destruct (is_nan y) eqn:Hy; [|reflexivity].
    rewrite (ltb_nan_r x y Hy) in Hlt. discriminate.
Qed.

Lemma ltb_leb (x y : float) : (x <? y) = true -> (x <=? y) = true.
Proof.
  intros Hlt. destruct (ltb_numbers x y Hlt) as [Hx Hy].
  apply leb_not_ltb; auto.
  destruct (y <? x) eqn:Hyx; [|reflexivity].
  pose proof (ltb_trans x y x Hx Hy Hx Hlt Hyx) as Hxx.
  pose proof (ltb_irrefl x Hx) as Hirr. congruence.
Qed.

(** ** The winner loop on scores that may be NaN *)

(** [bestScore] always is a number; it is not negative as soon as one of the
    clamped scores is a number, and it stays at -1 when all of them are NaN. *)
Lemma findWinner_number (scores : list (Emotion * float)) :
  Forall (fun kv => (snd kv <? 0) = false) scores ->
  is_nan (snd (findWinner scores)) = false
  /\ ((exists kv, kv ∈ scores /\ is_nan (snd kv) = false) ->
      (snd (findWinner scores) <? 0) = false)
  /\ ((forall kv, kv ∈ scores -> is_nan (snd kv) = true) ->
      findWinner scores = (neutral, -1)).
Proof.
  unfold findWinner.
  induction scores as [|x scores IH] using rev_ind; intros Hcl.
  - simpl. split; [reflexivity|]. split; [|reflexivity].
    intros (kv & Hkv & _). inversion Hkv.
  - apply Forall_app in Hcl as [Hcl Hx]. rewrite Forall_singleton in Hx.
    destruct (IH Hcl) as (Hnum & Hpos & Hall). clear IH.
    rewrite fold_left_app. simpl.
    set (r0 := fold_left pickStep scores (neutral, -1)) in *.
    unfold pickStep at 1 2 3, JS.gtb.
    destruct (snd r0 <? snd x) eqn:Hlt.
    + destruct (ltb_numbers _ _ Hlt) as [_ Hxnum].
      split; [exact Hxnum|]. split; [intros _; exact Hx|].
      intros Hnan. rewrite Hnan in Hxnum; [discriminate|].
      apply elem_of_app. right. now apply list_elem_of_singleton.
    + split; [exact Hnum|]. split.
      * intros (kv & Hkv & Hkvnum).
        apply elem_of_app in Hkv as [Hkv|Hkv]; [apply Hpos; eauto|].
        apply list_elem_of_singleton in Hkv. subst kv.
        apply (ltb_negtrans (snd r0) (snd x) 0); auto.
      * intros Hnan. apply Hall. intros kv Hkv. apply Hnan.
        apply elem_of_app. now left.
Qed.

Lemma Math_min_range (q : float) :
  is_nan q = false -> (q <? 0) = false ->
  (0 <=? Math_min q 1) = true /\ (Math_min q 1 <=? 1) = true.
Proof.
  intros Hq Hneg.
  assert (H0q : (0 <=? q) = true) by (apply leb_not_ltb; auto).
  unfold Math_min. rewrite Hq. simpl.
  destruct (q <? 1) eqn:Hlt; [split; [exact H0q | now apply ltb_leb]|].
  destruct (1 <? q) eqn:Hgt; [split; reflexivity|].
  destruct (get_sign q); [|split; reflexivity].
  split; [exact H0q | now apply leb_not_ltb].
Qed.

(** The confidence lies in [0,1] exactly when some post-clamp score is a
    number; when all six are NaN the result is neutral with the negative
    confidence [Math.min(-1 / 1.5, 1)]. *)
Theorem confidence_range (snap : list Category) :
  ((exists e, is_nan (scoreIn (scoresOf snap) e) = false) ->
   (0 <=? confidence (classifyEmotion snap)) = true
   /\ (confidence (classifyEmotion snap) <=? 1) = true)
  /\ ((forall e, is_nan (scoreIn (scoresOf snap) e) = true) ->
      classifyEmotion snap
      = {| emotion := neutral; confidence := -0.6666666666666666 |}).
Proof.
  assert (Hcl : Forall (fun kv : Emotion * float => (snd kv <? 0) = false)
                  (scoresOf snap)).
  { apply Forall_forall. intros kv Hkv.
    apply list_elem_of_lookup_1 in Hkv as [i Hi].
    apply scoresOf_entries in Hi as [_ ->].
    destruct (scoresOf_clamped snap (fst kv)) as [x ->].
    apply clamp_not_negative. }
  destruct (findWinner_number (scoresOf snap) Hcl) as (Hnum & Hpos & Hall).
  unfold classifyEmotion.
  destruct (findWinner (scoresOf snap)) as [best bestScore]. simpl in *.
  split.
  - intros [e He].
    assert (Hb : (bestScore <? 0) = false).
    { apply Hpos. exists (e, scoreIn (scoresOf snap) e). split; [|exact He].
      eapply list_elem_of_lookup_2. apply (scoresOf_lookup snap e). }
    destruct (div_not_negative bestScore Hnum Hb) as [Hq Hq0].
    now apply Math_min_range.
  - intros Hnan.
    assert (Hr : (best, bestScore) = (neutral, -1)).
    { apply Hall. intros kv Hkv.
      apply list_elem_of_lookup_1 in Hkv as [i Hi].
      apply scoresOf_entries in Hi as [_ ->]. apply Hnan. }
    injection Hr as -> ->. vm_compute. reflexivity.
Qed.

(** * Further properties of the classifier *)

(** ** Which entries of the snapshot count *)

(** The table of a concatenation: the later part shadows the earlier one. *)
Lemma lookupTable_app (l1 l2 : list Category) (n : string) :
  lookupTable (l1 ++ l2) !! n
  = match lookupTable l2 !! n with
    | Some x => Some x
    | None => lookupTable l1 !! n
    end.
Proof.
  induction l2 as [|c l2 IH] using rev_ind.
  - rewrite app_nil_r. unfold lookupTable at 2. simpl. now rewrite lookup_empty.
  - rewrite app_assoc, !lookupTable_snoc.
    destruct (decide (categoryName c = n)) as [->|Hne].
    + now rewrite !lookup_insert_eq.
    + rewrite !lookup_insert_ne by exact Hne. exact IH.
Qed.

Lemma lookupTable_named (snap : list Category) (n : string) :
  n ∈ map categoryName snap -> is_Some (lookupTable snap !! n).
Proof.
  induction snap as [|c snap IH] using rev_ind; intros Hn.
  - inversion Hn.
  - rewrite map_app in Hn. rewrite lookupTable_snoc.
    destruct (decide (categoryName c = n)) as [->|Hne].
    + rewrite lookup_insert_eq. eauto.
    + rewrite lookup_insert_ne by exact Hne. apply IH.
      apply elem_of_app in Hn as [Hn|Hn]; [exact Hn|].
      apply list_elem_of_singleton in Hn. congruence.
Qed.

(** Dropping entries does not change what is read under a name as long as
    every entry of that name is kept. *)
Lemma lookupTable_filter (P : Category -> Prop) `{!forall b, Decision (P b)}
    (snap : list Category) (n : string) :
  (forall b, categoryName b = n -> P b) ->
  lookupTable (filter P snap) !! n = lookupTable snap !! n.
Proof.
  intros HP. induction snap as [|c snap IH] using rev_ind; [reflexivity|].
  rewrite filter_app, filter_cons, filter_nil, lookupTable_snoc.
  destruct (decide (P c)) as [Hc|Hc].
  - rewrite lookupTable_snoc.
    destruct (decide (categoryName c = n)) as [->|Hne].
    + now rewrite !lookup_insert_eq.
    + rewrite !lookup_insert_ne by exact Hne. exact IH.
  - rewrite app_nil_r, lookup_insert_ne; [exact IH|].
    intros Heq. apply Hc. now apply HP.
Qed.

(** The aggregates read the table at the names of [readChannels] only. *)
Lemma aggregates_read_ext (s s' : gmap string float) :
  (forall n, n ∈ readChannels -> get s n = get s' n) ->
  aggregates s = aggregates s'.
Proof.
  intros H.
  assert (Hall : Forall (fun n => get s n = get s' n) readChannels).
  { apply Forall_forall. exact H. }
  unfold readChannels in Hall.
  repeat (apply Forall_cons in Hall as [? Hall]).
  unfold aggregates. congruence.
Qed.

(** X1: only the twenty-five channels named in the formulas are read; every
    other entry of the snapshot can be dropped without changing the scores
    or the result. *)
Theorem unread_channels_ignored (snap : list Category) :
  scoresOf (filter (fun b => categoryName b ∈ readChannels) snap)
  = scoresOf snap
  /\ classifyEmotion (filter (fun b => categoryName b ∈ readChannels) snap)
     = classifyEmotion snap.
Proof.
  apply classifyEmotion_ext, aggregates_read_ext. intros n Hn.
  unfold get. rewrite lookupTable_filter; [reflexivity|].
  intros b Hb. now rewrite Hb.
Qed.

(** X3: an entry that is followed, later in the array, by an entry of the
    same channel name has no effect: the later score overwrites it. *)
Theorem overwritten_entry_ignored (l1 l2 : list Category) (c : Category) :
  categoryName c ∈ map categoryName l2 ->
  classifyEmotion (l1 ++ c :: l2) = classifyEmotion (l1 ++ l2).
Proof.
  intros Hc. apply classifyEmotion_ext, aggregates_ext. intros n. unfold get.
  replace (l1 ++ c :: l2) with ((l1 ++ [c]) ++ l2) by now rewrite <- app_assoc.
  rewrite (lookupTable_app (l1 ++ [c]) l2 n), (lookupTable_app l1 l2 n).
  destruct (lookupTable l2 !! n) as [x|] eqn:Hl2; [reflexivity|].
  rewrite lookupTable_snoc, lookup_insert_ne; [reflexivity|].
  intros <-. apply lookupTable_named in Hc as [x Hx]. congruence.
Qed.

Lemma overwritten_entry_ignored_witness :
  classifyEmotion ([] ++ mkCategory "jawOpen" 1 :: surprisedSnapshot)
  = classifyEmotion ([] ++ surprisedSnapshot).
Proof.
  apply (overwritten_entry_ignored [] surprisedSnapshot (mkCategory "jawOpen" 1)).
  apply (bool_decide_unpack _). vm_compute. exact I.
Defined.

(** With distinct channel names, an entry of the table is an entry of the
    array. *)
Lemma lookupTable_distinct (snap : list Category) (n : string) (x : float) :
  NoDup (map categoryName snap) ->
  lookupTable snap !! n = Some x
  <-> exists b, b ∈ snap /\ categoryName b = n /\ score b = x.
Proof.
  induction snap as [|c snap IH] using rev_ind; intros Hnd.
  - unfold lookupTable. simpl. rewrite lookup_empty. split; [discriminate|].
    intros (b & Hb & _). inversion Hb.
  - rewrite map_app in Hnd. apply NoDup_app in Hnd as (Hnd & Hdisj & _).
    rewrite lookupTable_snoc.
    destruct (decide (categoryName c = n)) as [Heq|Hne].
    + rewrite Heq, lookup_insert_eq. split.
      * intros [= <-]. exists c. split; [|auto].
        apply elem_of_app. right. now apply list_elem_of_singleton.
      * intros (b & Hb & Hbn & Hbx).
        apply elem_of_app in Hb as [Hb|Hb].
        -- exfalso. apply (Hdisj n).
           ++ rewrite <- Hbn. apply list_elem_of_In, in_map.
              now apply list_elem_of_In.
           ++ simpl. rewrite Heq. now apply list_elem_of_singleton.
        -- apply list_elem_of_singleton in Hb. subst b. now rewrite Hbx.
    + rewrite lookup_insert_ne by exact Hne. rewrite (IH Hnd). split.
      * intros (b & Hb & Hrest). exists b. split; [|exact Hrest].
        apply elem_of_app. now left.
      * intros (b & Hb & Hbn & Hbx). exists b. split; [|auto].
        apply elem_of_app in Hb as [Hb|Hb]; [exact Hb|].
        apply list_elem_of_singleton in Hb. subst b. congruence.
Qed.

(** X2: when the channel names of a snapshot are distinct, the order of its
    entries does not matter. *)
Theorem order_of_entries_irrelevant (snap snap' : list Category) :
  NoDup (map categoryName snap) ->
  snap ≡ₚ snap' ->
  classifyEmotion snap = classifyEmotion snap'.
Proof.
  intros Hnd Hperm.
  assert (Hnd' : NoDup (map categoryName snap')).
  { pose proof (Permutation_map categoryName Hperm) as Hnames.
    now rewrite <- Hnames. }
  apply classifyEmotion_ext. f_equal. apply map_eq. intros n.
  apply option_eq. intros x.
  rewrite (lookupTable_distinct snap n x Hnd),
    (lookupTable_distinct snap' n x Hnd').
  split; intros (b & Hb & Hrest); exists b; split; auto.
  - now rewrite <- Hperm.
  - now rewrite Hperm.
Qed.

Lemma order_of_entries_irrelevant_witness :
  classifyEmotion surprisedSnapshot = classifyEmotion (reverse surprisedSnapshot).
Proof.
  apply (order_of_entries_irrelevant surprisedSnapshot (reverse surprisedSnapshot)).
  - apply (bool_decide_unpack _). vm_compute. exact I.
  - symmetry. apply reverse_Permutation.
Defined.

(** ** The confidence is capped for every snapshot *)

Section RoundingNumbers.

Local Open Scope Z_scope.

Lemma binary_round_aux_number sx m e l :
  0 <= m -> binary_round_aux prec emax sx m e l <> S754_nan.
Proof.
  intros Hm. unfold binary_round_aux.
  pose proof (shr_fexp_nonneg m e l Hm) as H1.
  destruct (shr_fexp prec emax m e l) as [mrs' e']. simpl in H1.
  pose proof (shr_fexp_nonneg
                (round_nearest_even (shr_m mrs') (loc_of_shr_record mrs')) e'
                loc_Exact (round_nearest_even_nonneg _ _ H1)) as H2.
  destruct (shr_fexp prec emax _ e' loc_Exact) as [mrs'' e'']. simpl in H2.
  destruct (shr_m mrs'') as [|p|p]; [discriminate| |lia].
  destruct (e'' <=? emax - prec); discriminate.
Qed.

(** Dividing a number by a finite number other than zero gives a number. *)
Lemma SFdiv_number x sy my ey :
  x <> S754_nan -> SFdiv prec emax x (S754_finite sy my ey) <> S754_nan.
Proof.
  destruct x as [s|s| |s mx ex]; simpl; try congruence; intros _.
  pose proof (SFdiv_core_nonneg mx ex my ey) as Hq.
  destruct (SFdiv_core_binary prec emax (Z.pos mx) ex (Z.pos my) ey)
    as [[mz ez] lz].
  now apply binary_round_aux_number.
Qed.

Lemma div_number (b : float) :
  is_nan b = false -> is_nan (b / 1.5)%float = false.
Proof.
  intros Hb. destruct (is_nan (b / 1.5)%float) eqn:Hq; [|reflexivity].
  apply Prim2SF_nan in Hq. rewrite FloatAxioms.div_spec in Hq.
  assert (H15 : exists m e, Prim2SF 1.5%float = S754_finite false m e).
  { eexists _, _. vm_compute. reflexivity. }
  destruct H15 as (m & e & H15). rewrite H15 in Hq.
  exfalso. revert Hq. apply SFdiv_number. now apply Prim2SF_not_nan.
Qed.

End RoundingNumbers.

Lemma Math_min_capped (q : float) :
  is_nan q = false ->
  is_nan (Math_min q 1) = false /\ (Math_min q 1 <=? 1) = true.
Proof.
  intros Hq. unfold Math_min. rewrite Hq. simpl.
  destruct (q <? 1) eqn:Hlt; [split; [exact Hq | now apply ltb_leb]|].
  destruct (1 <? q) eqn:Hgt; [split; reflexivity|].
  destruct (get_sign q); [|split; reflexivity].
  split; [exact Hq | now apply leb_not_ltb].
Qed.

Lemma scoresOf_not_negative (snap : list Category) :
  Forall (fun kv : Emotion * float => (snd kv <? 0) = false) (scoresOf snap).
Proof.
  apply Forall_forall. intros kv Hkv.
  apply list_elem_of_lookup_1 in Hkv as [i Hi].
  apply scoresOf_entries in Hi as [_ ->].
  destruct (scoresOf_clamped snap (fst kv)) as [x ->].
  apply clamp_not_negative.
Qed.

(** X4: for every snapshot, malformed or not, the confidence is a number
    (never NaN) and is at most 1.  It is at least 0 whenever one of the six
    post-clamp scores is a number; when none of them is, the result is
    neutral with confidence [Math.min(-1 / 1.5, 1)], which is negative. *)
Theorem confidence_capped (snap : list Category) :
  is_nan (confidence (classifyEmotion snap)) = false
  /\ (confidence (classifyEmotion snap) <=? 1) = true
  /\ ((exists e, is_nan (scoreIn (scoresOf snap) e) = false) ->
      (0 <=? confidence (classifyEmotion snap)) = true)
  /\ ((forall e, is_nan (scoreIn (scoresOf snap) e) = true) ->
      classifyEmotion snap
      = {| emotion := neutral; confidence := -0.6666666666666666 |}
      /\ (confidence (classifyEmotion snap) <? 0) = true).
Proof.
  assert (Hcap : is_nan (confidence (classifyEmotion snap)) = false
                 /\ (confidence (classifyEmotion snap) <=? 1) = true).
  { destruct (findWinner_number (scoresOf snap) (scoresOf_not_negative snap))
      as (Hnum & _ & _).
    unfold classifyEmotion.
    destruct (findWinner (scoresOf snap)) as [best bestScore]. simpl in *.
    apply Math_min_capped. now apply div_number. }
  destruct Hcap as [Hnum Hle]. split; [exact Hnum|]. split; [exact Hle|].
  destruct (confidence_range snap) as [Hsome Hnone]. split.
  - intros He. now apply Hsome.
  - intros Hall. rewrite (Hnone Hall). split; [reflexivity|].
    vm_compute. reflexivity.
Qed.

Lemma confidence_capped_witness :
  ((exists e, is_nan (scoreIn (scoresOf partlyNanSnapshot) e) = false)
   /\ (0 <=? confidence (classifyEmotion partlyNanSnapshot)) = true)
  /\ ((forall e, is_nan (scoreIn (scoresOf nanSnapshot) e) = true)
      /\ (confidence (classifyEmotion nanSnapshot) <? 0) = true).
Proof.
  assert (H1 : exists e, is_nan (scoreIn (scoresOf partlyNanSnapshot) e) = false).
  { exists sad. vm_compute. reflexivity. }
  assert (H2 : forall e, is_nan (scoreIn (scoresOf nanSnapshot) e) = true).
  { intros e. destruct e; vm_compute; reflexivity. }
  split; split; [exact H1 | | exact H2 | ].
  - exact (proj1 (proj2 (proj2 (confidence_capped partlyNanSnapshot))) H1).
  - exact (proj2 (proj2 (proj2 (proj2 (confidence_capped nanSnapshot))) H2)).
Defined.

(** ** The winner among scores that are numbers *)

(** The selection loop when some values cannot be compared: a value on
    which [ok] fails never wins a comparison, so it is skipped. *)
Section FirstMaxSkip.

Context {K V : Type} (lt : V -> V -> bool) (ok : V -> Prop).

Hypothesis lt_ok : forall a b, lt a b = true -> ok a /\ ok b.
Hypothesis lt_irrefl_ok : forall a, ok a -> lt a a = false.
Hypothesis lt_trans : forall a b c, ok a -> ok b -> ok c ->
  lt a b = true -> lt b c = true -> lt a c = true.
Hypothesis lt_negtrans : forall a b c, ok a -> ok b -> ok c ->
  lt a b = false -> lt b c = false -> lt a c = false.

Lemma firstMax_skip (l : list (K * V)) (init : K * V) :
  ok (snd init) ->
  let r := fold_left (keepGreater lt) l init in
  ok (snd r)
  /\ lt (snd r) (snd init) = false
  /\ (forall kv, kv ∈ l -> ok (snd kv) -> lt (snd r) (snd kv) = false)
  /\ ((r = init
       /\ forall kv, kv ∈ l -> ok (snd kv) -> lt (snd init) (snd kv) = false)
      \/ exists i, l !! i = Some r
                   /\ lt (snd init) (snd r) = true
                   /\ forall j kv, l !! j = Some kv -> (j < i)%nat ->
                                   ok (snd kv) -> lt (snd kv) (snd r) = true).
Proof using lt_ok lt_irrefl_ok lt_trans lt_negtrans.
  intros Hinit.
  assert (lt_irrefl : forall a, lt a a = false).
  { intros a. destruct (lt a a) eqn:Haa; [|reflexivity].
    destruct (lt_ok a a Haa) as [Ha _]. now rewrite lt_irrefl_ok in Haa. }
  induction l as [|x l IH] using rev_ind; intros r.
  - subst r. simpl. split; [|split; [|split]]; auto.
    + intros kv Hkv. inversion Hkv.
    + left. split; [reflexivity|]. intros kv Hkv. inversion Hkv.
  - destruct IH as (Hr0 & Hri & Hmax & Hpos).
    subst r. rewrite fold_left_app. simpl.
    set (r0 := fold_left (keepGreater lt) l init) in *.
    change (keepGreater lt r0 x) with (if lt (snd r0) (snd x) then x else r0).
    destruct (lt (snd r0) (snd x)) eqn:Hlt.
    + destruct (lt_ok _ _ Hlt) as [_ Hx].
      assert (Hall : forall kv, kv ∈ l -> ok (snd kv) ->
                lt (snd kv) (snd x) = true).
      { intros kv Hkv Hokkv.
        apply (lt_above lt ok lt_negtrans (snd kv) (snd r0) (snd x)); auto. }
      assert (Hix : lt (snd init) (snd x) = true).
      { apply (lt_above lt ok lt_negtrans (snd init) (snd r0) (snd x)); auto. }
      split; [|split; [|split]]; auto.
      * apply (lt_below lt ok lt_trans (snd r0) (snd x) (snd init)); auto.
      * intros kv Hkv Hokkv. apply elem_of_app in Hkv as [Hkv|Hkv].
        -- apply (lt_below lt ok lt_trans (snd r0) (snd x) (snd kv)); auto.
        -- apply list_elem_of_singleton in Hkv. subst kv. apply lt_irrefl.
      * right. exists (length l). split; [|split]; auto.
        -- rewrite lookup_app_r by lia. now rewrite Nat.sub_diag.
        -- intros j kv Hj Hjl Hokkv. rewrite lookup_app_l in Hj by lia.
           apply Hall; [|exact Hokkv]. eapply list_elem_of_lookup_2; eauto.
    + split; [|split; [|split]]; auto.
      * intros kv Hkv Hokkv. apply elem_of_app in Hkv as [Hkv|Hkv]; auto.
        apply list_elem_of_singleton in Hkv. now subst kv.
      * destruct Hpos as [[Heq Hnone]|(i & Hi & Hgt & Hbefore)].
        -- left. split; auto. intros kv Hkv Hokkv.
           apply elem_of_app in Hkv as [Hkv|Hkv]; auto.
           apply list_elem_of_singleton in Hkv. subst kv.
           now rewrite <- Heq.
        -- right. exists i.
           pose proof (lookup_lt_Some _ _ _ Hi) as Hlen.
           split; [|split]; auto.
           ++ now rewrite lookup_app_l by lia.
           ++ intros j kv Hj Hji. rewrite lookup_app_l in Hj by lia. eauto.
Qed.

End FirstMaxSkip.

(** X5: as soon as one post-clamp score is a number, NaN scores are passed
    over: the label returned has a score that is a number, above or equal to
    every score that is a number and strictly above those of them that come
    earlier in the order of the keys; the confidence is computed from it. *)
Theorem winner_among_numbers (snap : list Category) :
  (exists e, is_nan (scoreIn (scoresOf snap) e) = false) ->
  let sc := scoresOf snap in
  let w := emotion (classifyEmotion snap) in
  is_nan (scoreIn sc w) = false
  /\ (forall e, is_nan (scoreIn sc e) = false ->
                (scoreIn sc e <=? scoreIn sc w) = true)
  /\ (forall e, is_nan (scoreIn sc e) = false ->
                (enumIndex e < enumIndex w)%nat ->
                (scoreIn sc e <? scoreIn sc w) = true)
  /\ confidence (classifyEmotion snap) = Math_min (scoreIn sc w / 1.5) 1.
Proof.
  intros [e0 He0] sc w.
  pose proof (firstMax_skip (K := Emotion) PrimFloat.ltb
                (fun v => is_nan v = false) ltb_numbers ltb_irrefl ltb_trans
                ltb_negtrans sc (neutral, -1) eq_refl) as H.
  cbv zeta in H.
  change (fold_left _ sc (neutral, -1)) with (findWinner sc) in H.
  destruct H as (Hr & _ & Hmax & Hpos).
  assert (Hin : forall e, (e, scoreIn sc e) ∈ sc).
  { intros e. eapply list_elem_of_lookup_2. apply (scoresOf_lookup snap e). }
  destruct Hpos as [[_ Hnone]|(i & Hi & _ & Hbefore)].
  { exfalso. specialize (Hnone _ (Hin e0) He0). cbn [fst snd] in Hnone.
    destruct (scoresOf_clamped snap e0) as [x Hx].
    subst sc. rewrite Hx in He0, Hnone.
    rewrite (clamp_above_initial x He0) in Hnone. discriminate. }
  assert (Hw : w = fst (findWinner sc)).
  { subst w. unfold classifyEmotion. fold sc. now destruct (findWinner sc). }
  apply scoresOf_entries in Hi as Hiw. destruct Hiw as [Hidx Hsw].
  fold sc in Hidx, Hsw. rewrite <- Hw in Hidx, Hsw.
  rewrite <- Hsw. split; [exact Hr|]. split; [|split].
  - intros e He. apply leb_not_ltb; [exact He | exact Hr |].
    apply (Hmax (e, scoreIn sc e)); [apply Hin | exact He].
  - intros e He Hlt.
    apply (Hbefore (enumIndex e) (e, scoreIn sc e)); [|lia|exact He].
    apply (scoresOf_lookup snap e).
  - unfold classifyEmotion. fold sc. now destruct (findWinner sc).
Qed.

Lemma winner_among_numbers_witness :
  (exists e, is_nan (scoreIn (scoresOf partlyNanSnapshot) e) = false)
  /\ is_nan (scoreIn (scoresOf partlyNanSnapshot)
               (emotion (classifyEmotion partlyNanSnapshot))) = false.
Proof.
  assert (H : exists e, is_nan (scoreIn (scoresOf partlyNanSnapshot) e) = false).
  { exists sad. vm_compute. reflexivity. }
  split; [exact H|].
  exact (proj1 (winner_among_numbers partlyNanSnapshot H)).
Defined.

(** * Further properties of the smoother *)

(** ** The history across frames *)

(** Pushing labels one by one keeps the last eight of everything pushed. *)
Lemma pushHistory_window (ls h : list Emotion) :
  (length h <= HISTORY_SIZE)%nat ->
  fold_left pushHistory ls h = lastN HISTORY_SIZE (h ++ ls).
Proof.
  intros Hlen. unfold lastN. induction ls as [|e ls IH] using rev_ind.
  - simpl. rewrite app_nil_r.
    replace (length h - HISTORY_SIZE)%nat with 0%nat by lia. reflexivity.
  - rewrite fold_left_app. simpl. rewrite IH.
    set (X := h ++ ls).
    set (d := (length X - HISTORY_SIZE)%nat).
    rewrite pushHistory_drop
      by (rewrite length_drop; subst d; unfold HISTORY_SIZE in *; lia).
    rewrite length_drop, app_assoc. fold X.
    rewrite <- (drop_app_le X [e] d) by (subst d; lia).
    rewrite drop_drop, length_app. simpl.
    f_equal. subst d. unfold HISTORY_SIZE in *. lia.
Qed.

Lemma predictFrame_history f st :
  emotionHistory (predictFrame f st)
  = fold_left pushHistory (labelsOf [f]) (emotionHistory st).
Proof.
  destruct f; simpl; [reflexivity|reflexivity|].
  apply updateEmotionSmoothed_history.
Qed.

Lemma runFrames_history frames st :
  emotionHistory (runFrames frames st)
  = fold_left pushHistory (labelsOf frames) (emotionHistory st).
Proof.
  revert st. induction frames as [|f frames IH]; intros st; [reflexivity|].
  change (runFrames (f :: frames) st) with (runFrames frames (predictFrame f st)).
  replace (labelsOf (f :: frames)) with (labelsOf [f] ++ labelsOf frames)
    by (unfold labelsOf; simpl; now rewrite app_nil_r).
  now rewrite IH, predictFrame_history, fold_left_app.
Qed.

(** X6: whatever frames are processed, the history holds the last eight raw
    labels that were classified, in order; frames without a face and frames
    without blend shapes neither add to it nor empty it. *)
Theorem history_is_last_eight_labels (frames : list Frame) (st : State) :
  reachable st ->
  emotionHistory (runFrames frames st)
  = lastN HISTORY_SIZE (emotionHistory st ++ labelsOf frames).
Proof.
  intros Hr. rewrite runFrames_history.
  apply pushHistory_window. now apply reachable_history_bounded.
Qed.

Lemma history_is_last_eight_labels_witness :
  emotionHistory
    (runFrames [Face frownSnapshot; NoFace; Face smileSnapshot] initialState)
  = lastN HISTORY_SIZE
      (emotionHistory initialState
       ++ labelsOf [Face frownSnapshot; NoFace; Face smileSnapshot]).
Proof.
  exact (history_is_last_eight_labels
           [Face frownSnapshot; NoFace; Face smileSnapshot] initialState
           reach_init).
Defined.

(** ** The page and the displayed label *)

Lemma updateUI_pageShows e conf st : pageShows st -> pageShows (updateUI e conf st).
Proof.
  intros Hst. unfold updateUI.
  destruct (decide (Some e = currentEmotion st)); [exact Hst|].
  repeat split.
Qed.

Lemma predictFrame_pageShows f st :
  pageShows st -> pageShows (predictFrame f st).
Proof.
  intros Hst. destruct f; simpl.
  - repeat split.
  - exact Hst.
  - unfold updateEmotionSmoothed. apply updateUI_pageShows. exact Hst.
Qed.

(** X7: the page keeps agreeing with [currentEmotion] while frames are
    processed: label, highlighted pill, image and status line name the
    current label, and without a label the placeholder is shown with 0. *)
Theorem page_follows_label (frames : list Frame) (st : State) :
  pageShows st -> pageShows (runFrames frames st).
Proof.
  revert st. induction frames as [|f frames IH]; intros st Hst; [exact Hst|].
  apply IH. now apply predictFrame_pageShows.
Qed.

Lemma page_follows_label_witness :
  pageShows (runFrames [Face frownSnapshot; NoFace; Face smileSnapshot]
               initialState).
Proof.
  apply (page_follows_label [Face frownSnapshot; NoFace; Face smileSnapshot]
           initialState).
  repeat split.
Defined.

(** X11: a frame without a face forces the next classified frame to render:
    whatever was shown before, the page then shows the dominant label with
    the percentage of that frame's own confidence. *)
Theorem face_after_no_face_renders (st : State) (categories : list Category) :
  let r := classifyEmotion categories in
  let d := dominantOf (emotion r) (pushHistory (emotionHistory st) (emotion r)) in
  let st' := predictFrame (Face categories) (predictFrame NoFace st) in
  currentEmotion st' = Some d
  /\ pageShows st'
  /\ confidencePct (page st') = Math_round (confidence r * 100).
Proof.
  intros r d st'. subst st'. simpl. fold r.
  unfold updateEmotionSmoothed, updateUI. simpl. fold d.
  destruct (decide (Some d = None)) as [Heq|_]; [discriminate|].
  repeat split.
Qed.

(** ** The dominant label as a majority vote *)

(** The table of a non-empty history starts with an entry of positive
    count. *)
Lemma countFreq_head (h : list Emotion) :
  h <> [] -> exists k c rest, countFreq h = (k, S c) :: rest.
Proof.
  induction h as [|e h IH] using rev_ind; intros Hne; [congruence|].
  rewrite countFreq_snoc. destruct h as [|x h'].
  - exists e, 0%nat, []. reflexivity.
  - destruct IH as (k & c & rest & Heq); [discriminate|].
    rewrite Heq. simpl. destruct (decide (k = e)); eauto.
Qed.

(** X8: on a non-empty history the dominant label does not depend on the
    raw label that initialises [dominant]: the smoothed label is a function
    of the window alone. *)
Theorem dominant_depends_on_window_only (e0 e1 : Emotion) (h : list Emotion) :
  h <> [] -> dominantOf e0 h = dominantOf e1 h.
Proof.
  intros Hne. unfold dominantOf.
  destruct (countFreq_head h Hne) as (k & c & rest & ->). reflexivity.
Qed.

Lemma dominant_depends_on_window_only_witness :
  dominantOf happy [sad; angry; sad] = dominantOf neutral [sad; angry; sad].
Proof.
  apply (dominant_depends_on_window_only happy neutral [sad; angry; sad]).
  discriminate.
Defined.

(** No label of a non-empty history occurs more often than the dominant one. *)
Lemma dominantOf_max (e0 : Emotion) (h : list Emotion) :
  h <> [] -> forall e, (occurrences e h <= occurrences (dominantOf e0 h) h)%nat.
Proof.
  intros Hne e.
  destruct (dominant_loop (countFreq h) e0) as [Hmax Hpos].
  fold (dominantOf e0 h) in *.
  set (r := fold_left domStep (countFreq h) (e0, 0%nat)) in *.
  assert (Hd : dominantOf e0 h = fst r) by reflexivity.
  rewrite countFreq_spec in Hmax, Hpos.
  assert (Hr : snd r = occurrences (fst r) h).
  { destruct Hpos as [[Heq Hnone]|(i & Hi & _)].
    - exfalso. destruct h as [|x h]; [congruence|].
      assert (Hx : x ∈ x :: h) by (apply elem_of_cons; auto).
      specialize (Hnone (x, occurrences x (x :: h))).
      apply occurrences_present in Hx. simpl in Hnone.
      rewrite Hnone in Hx; [lia|].
      apply (list_elem_of_fmap_2 (fun k => (k, occurrences k (x :: h)))).
      apply firstSeen_elem. apply elem_of_cons; auto.
    - apply list_lookup_fmap_Some in Hi as (k & -> & _). reflexivity. }
  rewrite Hd, <- Hr.
  destruct (decide (e ∈ h)) as [He|He].
  - apply (Hmax (e, occurrences e h)).
    apply (list_elem_of_fmap_2 (fun k => (k, occurrences k h))).
    now apply firstSeen_elem.
  - rewrite (occurrences_absent e h He). lia.
Qed.

Lemma occurrences_two (a b : Emotion) (h : list Emotion) :
  a <> b -> (occurrences a h + occurrences b h <= length h)%nat.
Proof.
  intros Hab. unfold occurrences. induction h as [|x h IH]; [simpl; lia|].
  rewrite !filter_cons.
  destruct (decide (x = a)), (decide (x = b)); simpl; try lia. congruence.
Qed.

(** X9: a label that fills more than half of the history is the dominant
    label. *)
Theorem majority_is_dominant (e0 e : Emotion) (h : list Emotion) :
  (length h < 2 * occurrences e h)%nat -> dominantOf e0 h = e.
Proof.
  intros Hmaj.
  assert (Hne : h <> []).
  { intros ->. simpl in Hmaj. unfold occurrences in Hmaj. simpl in Hmaj. lia. }
  pose proof (dominantOf_max e0 h Hne e) as Hmax.
  destruct (decide (dominantOf e0 h = e)) as [Heq|Hneq]; [exact Heq|].
  pose proof (occurrences_two _ _ h Hneq). lia.
Qed.

Lemma majority_is_dominant_witness :
  dominantOf happy [sad; angry; sad] = sad.
Proof.
  apply (majority_is_dominant happy sad [sad; angry; sad]).
  vm_compute. lia.
Defined.

(** ** How long a change of label takes *)

Lemma observeAll_current (frames : list (Emotion * float)) (f : Emotion * float)
    (st : State) :
  currentEmotion (observeAll (frames ++ [f]) st)
  = Some (dominantOf (fst f) (emotionHistory (observeAll (frames ++ [f]) st))).
Proof.
  unfold observeAll. rewrite fold_left_app. simpl.
  now rewrite updateEmotionSmoothed_current, updateEmotionSmoothed_history.
Qed.

Lemma switch_window (a b : Emotion) (j : nat) :
  a <> b -> (j <= 8)%nat ->
  dominantOf b (fold_left pushHistory (replicate j b) (replicate 8 a))
  = if (j <=? 4)%nat then a else b.
Proof.
  intros Hab Hj.
  do 9 (destruct j as [|j];
        [destruct a, b; try congruence; vm_compute; reflexivity|]).
  lia.
Qed.

(** X10: when the history holds eight times the label [a], observing another
    label [b] up to four times in a row leaves [a] displayed; from the fifth
    observation in a row on, [b] is displayed. *)
Theorem switch_takes_five_frames (st : State) (a b : Emotion)
    (confs : list float) :
  a <> b ->
  emotionHistory st = replicate HISTORY_SIZE a ->
  (0 < length confs <= HISTORY_SIZE)%nat ->
  currentEmotion (observeAll (map (fun conf => (b, conf)) confs) st)
  = Some (if (length confs <=? 4)%nat then a else b).
Proof.
  intros Hab Hh [Hpos Hlen].
  assert (Hhist : emotionHistory
                    (observeAll (map (fun conf => (b, conf)) confs) st)
                  = fold_left pushHistory (replicate (length confs) b)
                      (replicate 8 a)).
  { rewrite observeAll_history, Hh, map_map. simpl. f_equal.
    clear. induction confs; simpl; congruence. }
  destruct confs as [|c confs _] using rev_ind; [simpl in Hpos; lia|].
  rewrite map_app in *. simpl map in *.
  rewrite observeAll_current, Hhist. f_equal.
  apply switch_window; [exact Hab | exact Hlen].
Qed.

Lemma switch_takes_five_frames_witness :
  let st := observeAll (map (fun conf => (happy, conf)) (replicate 8 0.9))
              initialState in
  currentEmotion (observeAll (map (fun conf => (sad, conf)) (replicate 5 0.5)) st)
  = Some sad.
Proof.
  intros st.
  apply (switch_takes_five_frames st happy sad (replicate 5 0.5)).
  - discriminate.
  - reflexivity.
  - simpl. unfold HISTORY_SIZE. lia.
Defined.

(** * The prediction loop and the camera button *)

Lemma strictNeq_same (t : float) : is_nan t = false -> strictNeq t t = false.
Proof. unfold strictNeq, is_nan. intros H. exact H. Qed.

(** X12: when the camera runs and a callback sees the same
    [video.currentTime] as the callback before it, it neither classifies nor
    changes any module variable or the emotion panel; its only effect is
    that the resize resets the canvas, whose mesh is gone and not redrawn,
    and the loop goes on. *)
Theorem same_video_time_processed_once (t : float) (f1 f2 : Frame) (app : App) :
  is_nan t = false ->
  webcamRunning app = true ->
  let app1 := fst (predict t f1 app) in
  predict t f2 app1 = (wipeCanvas app1, true)
  /\ smoothing (fst (predict t f2 app1)) = smoothing app1
  /\ lastVideoTime (fst (predict t f2 app1)) = lastVideoTime app1
  /\ canvasMesh (fst (predict t f2 app1)) = false.
Proof.
  intros Ht Hrun app1.
  assert (Hrun1 : webcamRunning app1 = true).
  { subst app1. unfold predict. rewrite Hrun. cbn [negb].
    destruct (strictNeq (lastVideoTime app) t); cbn; [reflexivity | exact Hrun]. }
  assert (Hold : strictNeq (lastVideoTime app1) t = false).
  { subst app1. unfold predict. rewrite Hrun. cbn [negb].
    destruct (strictNeq (lastVideoTime app) t) eqn:Hnew; cbn.
    - exact (strictNeq_same t Ht).
    - exact Hnew. }
  assert (Hp : predict t f2 app1 = (wipeCanvas app1, true)).
  { unfold predict. now rewrite Hrun1, Hold. }
  rewrite Hp. repeat split.
Qed.

Lemma same_video_time_processed_once_witness :
  let app := onLoadedData (mkApp true false (-1) true "Start Camera" false false
                             initialState) in
  let app1 := fst (predict 0.5 (Face frownSnapshot) app) in
  canvasMesh app1 = true
  /\ predict 0.5 (Face smileSnapshot) app1 = (wipeCanvas app1, true).
Proof.
  intros app app1. split; [reflexivity|].
  exact (proj1 (same_video_time_processed_once 0.5 (Face frownSnapshot)
                  (Face smileSnapshot) app eq_refl eq_refl)).
Defined.

(** X15: while the camera runs and every callback sees a new video time,
    the loop processes exactly the frames it is given, one after the other,
    and keeps running. *)
Theorem loop_processes_each_new_frame (calls : list (float * Frame))
    (app : App) :
  webcamRunning app = true ->
  freshTimes (lastVideoTime app) calls = true ->
  smoothing (runLoop calls app) = runFrames (map snd calls) (smoothing app)
  /\ webcamRunning (runLoop calls app) = true.
Proof.
  revert app. induction calls as [|[t f] calls IH]; intros app Hrun Hfresh.
  - split; [reflexivity | exact Hrun].
  - simpl in Hfresh. apply andb_true_iff in Hfresh as [Hnew Hfresh].
    simpl. unfold predict. rewrite Hrun, Hnew. simpl.
    apply IH; [reflexivity | exact Hfresh].
Qed.

Lemma loop_processes_each_new_frame_witness :
  let app := onLoadedData (mkApp true false (-1) true "Start Camera" false false
                             initialState) in
  smoothing (runLoop [(0, Face frownSnapshot); (0.5, NoFace)] app)
  = runFrames [Face frownSnapshot; NoFace] (smoothing app).
Proof.
  intros app.
  exact (proj1 (loop_processes_each_new_frame
                  [(0, Face frownSnapshot); (0.5, NoFace)] app
                  eq_refl eq_refl)).
Defined.



(** X13: every emotion has its own image, found under the name of the
    emotion. *)
Theorem EMOTION_IMAGES_distinct :
  (forall e, EMOTION_IMAGES e
             = "./images/expressions/" +:+ emotionText e +:+ ".jpeg")
  /\ (forall e e', EMOTION_IMAGES e = EMOTION_IMAGES e' -> e = e').
Proof.
  split.
  - intros e. destruct e; reflexivity.
  - intros e e' H. destruct e, e'; try reflexivity; discriminate H.
Qed.
